(** * Shopify MCP server: the gateway layer

    A shallow embedding of [src/clients/shopify-graphql.ts],
    [src/utils/error-handler.ts] and [src/utils/pagination.ts]:
    the identifier codec ([toGid] / [fromGid]), the endpoint computed by the
    client constructor, the error classifier ([handleError]), the mutation
    normaliser ([mutate]), the pagination loop ([queryAll]) and the
    handler-side error converter ([handleToolError], [withErrorHandling]).

    Conventions of the embedding.
    - A JavaScript string is a [string]; every pattern and literal the code
      compares against is ASCII, so matching works on characters one by one.
    - A call that may throw returns an [Outcome]: [Returned v] or [Threw e].
    - [await] on a promise is the same [Outcome]: resolution is [Returned],
      rejection is [Threw].
    - Values are taken at the types the source declares for them.
    - The [while] loop of [queryAll] is run with fuel; [None] means that the
      loop has not exited within the fuel given. *)

From Stdlib Require Import Bool List String Ascii ZArith NArith Lia.
From Stdlib Require Import Numbers.DecimalString.
Import ListNotations.

#[local] Set Warnings "-register-all".

Local Open Scope list_scope.
Local Open Scope string_scope.

(* ------------------------------------------------------------------ *)
(** * JavaScript string primitives *)

Module JsString.

(** [s.startsWith(p)] *)
Definition startsWith (s p : string) : bool := String.prefix p s.

(** [s.includes(p)]: [p] occurs somewhere in [s]. *)
Fixpoint includes (s p : string) : bool :=
  if String.prefix p s then true
  else match s with
       | EmptyString => false
       | String _ s' => includes s' p
       end.

(** [p] is a substring of [s], said without an algorithm. *)
Definition contains (s p : string) : Prop :=
  exists before rest, s = before ++ p ++ rest.

(** What follows [p] in [s], when [s] starts with [p]. *)
Fixpoint dropPrefix (p s : string) : option string :=
  match p, s with
  | EmptyString, _ => Some s
  | String a p', String b s' => if Ascii.eqb a b then dropPrefix p' s' else None
  | String _ _, EmptyString => None
  end.

(** [s.replace(p, '')] with a string pattern: the first occurrence of [p]
    is removed, the rest is kept. *)
Fixpoint replaceFirst (s p : string) : string :=
  match dropPrefix p s with
  | Some rest => rest
  | None => match s with
            | EmptyString => EmptyString
            | String c s' => String c (replaceFirst s' p)
            end
  end.

Definition inRange (lo hi c : ascii) : bool :=
  (N_of_ascii lo <=? N_of_ascii c)%N && (N_of_ascii c <=? N_of_ascii hi)%N.

(** [\d] and [\w] of a regular expression without the unicode flag. *)
Definition isDigit (c : ascii) : bool := inRange "0" "9" c.
Definition isWord (c : ascii) : bool :=
  inRange "a" "z" c || inRange "A" "Z" c || inRange "0" "9" c || Ascii.eqb c "_".

(** [toUpperCase] on the ASCII letters (the only letters in the class names
    it is applied to). *)
Definition upperChar (c : ascii) : ascii :=
  if inRange "a" "z" c then ascii_of_N (N_of_ascii c - 32) else c.

Fixpoint toUpperCase (s : string) : string :=
  match s with
  | EmptyString => EmptyString
  | String c s' => String (upperChar c) (toUpperCase s')
  end.

Fixpoint allOf (p : ascii -> bool) (s : string) : bool :=
  match s with
  | EmptyString => true
  | String c s' => p c && allOf p s'
  end.

(** [xs.join(sep)] *)
Definition join (sep : string) (xs : list string) : string := String.concat sep xs.

(** A string is truthy when it is not empty. *)
Definition truthy (s : string) : bool :=
  match s with EmptyString => false | _ => true end.

(** [a || b] on optional strings ([undefined] is [None]). *)
Definition orElse (a : option string) (b : string) : string :=
  match a with
  | Some s => if truthy s then s else b
  | None => b
  end.

End JsString.

(* ------------------------------------------------------------------ *)
(** * A backtracking matcher for the regular expressions of the client

    The three expressions of the source, [/gid:\/\/shopify\/\w+\/(\d+)/],
    [/^https?:\/\//] and [/\/$/], are sequences of one-character atoms, each
    taken once, optionally ([?]) or one or more times ([+]), with at most one
    capture group and the anchors [^] and [$]. Quantifiers are greedy and
    backtrack, as in JavaScript. *)

Module Regex.

Inductive quantifier := Once | Maybe | Many1.

Record item := Item {
  cls : ascii -> bool;       (* the character class of the atom *)
  quant : quantifier;
  grouped : bool             (* inside capture group 1 *)
}.

Record regex := Regex {
  anchorStart : bool;        (* ^ *)
  items : list item;
  anchorEnd : bool           (* $ *)
}.

(** A successful match at a position: the matched text ([m[0]]), the
    capture ([m[1]]) and the text after the match. *)
Record hit := Hit { matched : string; group1 : string; after : string }.

Definition take (g : bool) (c : ascii) (h : hit) : hit :=
  {| matched := String c (matched h);
     group1 := if g then String c (group1 h) else group1 h;
     after := after h |}.

(** [takeAll g cs h]: [h] with the characters [cs] put in front. *)
Definition takeAll (g : bool) (cs : string) (h : hit) : hit :=
  {| matched := cs ++ matched h;
     group1 := if g then cs ++ group1 h else group1 h;
     after := after h |}.

(** The text [s] does not start with a character of the class [p]. *)
Definition stopsAt (p : ascii -> bool) (s : string) : bool :=
  match s with
  | EmptyString => true
  | String c _ => negb (p c)
  end.

(** Greedy repetition: first try to take one more character, and only when
    the rest of the expression fails after that, stop here. *)
Fixpoint star (p : ascii -> bool) (g : bool) (k : string -> option hit)
         (s : string) : option hit :=
  match s with
  | String c s' =>
      if p c then
        match star p g k s' with
        | Some h => Some (take g c h)
        | None => k s
        end
      else k s
  | EmptyString => k s
  end.

Definition finish (aend : bool) (s : string) : option hit :=
  if aend then
    match s with
    | EmptyString => Some (Hit "" "" "")
    | String _ _ => None
    end
  else Some (Hit "" "" s).

Fixpoint run (aend : bool) (its : list item) : string -> option hit :=
  match its with
  | [] => finish aend
  | it :: rest =>
      let k := run aend rest in
      match quant it with
      | Once => fun s =>
          match s with
          | String c s' =>
              if cls it c then option_map (take (grouped it) c) (k s') else None
          | EmptyString => None
          end
      | Maybe => fun s =>
          match s with
          | String c s' =>
              if cls it c then
                match k s' with
                | Some h => Some (take (grouped it) c h)
                | None => k s
                end
              else k s
          | EmptyString => k s
          end
      | Many1 => fun s =>
          match s with
          | String c s' =>
              if cls it c
              then option_map (take (grouped it) c) (star (cls it) (grouped it) k s')
              else None
          | EmptyString => None
          end
      end
  end.

(** The leftmost position at which the expression matches; the text before
    it is returned with the hit. *)
Fixpoint scan (aend : bool) (its : list item) (s : string) : option (string * hit) :=
  match run aend its s with
  | Some h => Some (EmptyString, h)
  | None =>
      match s with
      | String c s' =>
          option_map (fun bh => (String c (fst bh), snd bh)) (scan aend its s')
      | EmptyString => None
      end
  end.

Definition exec (r : regex) (s : string) : option (string * hit) :=
  if anchorStart r
  then option_map (fun h => (EmptyString, h)) (run (anchorEnd r) (items r) s)
  else scan (anchorEnd r) (items r) s.

(** [s.match(r)] for an expression without the global flag. *)
Definition strMatch (r : regex) (s : string) : option hit :=
  option_map snd (exec r s).

(** [s.replace(r, '')] for an expression without the global flag. *)
Definition replaceEmpty (r : regex) (s : string) : string :=
  match exec r s with
  | Some (before, h) => before ++ after h
  | None => s
  end.

Definition lit (c : ascii) : item := Item (Ascii.eqb c) Once false.

Fixpoint lits (s : string) : list item :=
  match s with
  | EmptyString => []
  | String c s' => lit c :: lits s'
  end.

(** What it means for a text to be matched by a sequence of items, with
    the capture it leaves: the declarative reading of the expression. *)
Inductive derives : list item -> string -> string -> Prop :=
| derives_nil : derives [] "" ""
| derives_once it rest c m cap :
    quant it = Once -> cls it c = true -> derives rest m cap ->
    derives (it :: rest) (String c m) (if grouped it then String c cap else cap)
| derives_maybe_take it rest c m cap :
    quant it = Maybe -> cls it c = true -> derives rest m cap ->
    derives (it :: rest) (String c m) (if grouped it then String c cap else cap)
| derives_maybe_skip it rest m cap :
    quant it = Maybe -> derives rest m cap ->
    derives (it :: rest) m cap
| derives_many1 it rest cs m cap :
    quant it = Many1 -> cs <> "" -> JsString.allOf (cls it) cs = true ->
    derives rest m cap ->
    derives (it :: rest) (cs ++ m) (if grouped it then cs ++ cap else cap).

End Regex.

(* ------------------------------------------------------------------ *)
(** * The data of [types/shopify.ts] *)

Module Types.

Record ShopifyConfig := Config {
  storeUrl : string;
  accessToken : string;
  apiVersion : string
}.

Record PageInfo := MkPageInfo {
  hasNextPage : bool;
  hasPreviousPage : bool;
  startCursor : option string;   (* string | null *)
  endCursor : option string
}.

Record Edge (T : Type) := MkEdge { node : T; cursor : string }.
Arguments MkEdge {T} node cursor.
Arguments node {T} e.
Arguments cursor {T} e.

Record Connection (T : Type) := MkConnection {
  edges : list (Edge T);
  connPageInfo : PageInfo
}.
Arguments MkConnection {T} edges connPageInfo.
Arguments edges {T} c.
Arguments connPageInfo {T} c.

Record PaginatedResult (T : Type) := MkPaginated {
  items : list T;
  pageInfo : PageInfo
}.
Arguments MkPaginated {T} items pageInfo.
Arguments items {T} p.
Arguments pageInfo {T} p.

Record ShopifyUserError := UserError {
  field : option (list string);   (* string[] | null *)
  message : string;
  code : option string            (* code?: string *)
}.

End Types.

(* ------------------------------------------------------------------ *)
(** * Thrown values and the error classes of the client *)

(** The classes an [Error] object can belong to. [PlainError] stands for
    [Error] itself and for every subclass declared outside the client. *)
Inductive ErrorClass :=
| PlainError
| ShopifyAPIError
| ShopifyRateLimitError
| ShopifyAuthenticationError
| ShopifyNotFoundError
| ShopifyValidationError.

(** An [Error] object: its class, its [name] and [message] properties, and
    the [userErrors] a [ShopifyValidationError] carries. *)
Record ErrorObject := MkError {
  errClass : ErrorClass;
  errName : string;
  errMessage : string;
  errUserErrors : list Types.ShopifyUserError
}.

(** Anything a [throw] can carry: an [Error] object, or some other value. *)
Inductive Thrown :=
| ThrownError (e : ErrorObject)
| ThrownOther (description : string).

Inductive Outcome (A : Type) :=
| Returned (a : A)
| Threw (e : Thrown).
Arguments Returned {A} a.
Arguments Threw {A} e.

Module Errors.

(** The constructors at the end of [shopify-graphql.ts]: each sets [name]
    to the name of its class. *)
Definition newError (msg : string) : ErrorObject :=
  MkError PlainError "Error" msg [].
Definition newShopifyAPIError (msg : string) : ErrorObject :=
  MkError ShopifyAPIError "ShopifyAPIError" msg [].
Definition newShopifyRateLimitError (msg : string) : ErrorObject :=
  MkError ShopifyRateLimitError "ShopifyRateLimitError" msg [].
Definition newShopifyAuthenticationError (msg : string) : ErrorObject :=
  MkError ShopifyAuthenticationError "ShopifyAuthenticationError" msg [].
Definition newShopifyNotFoundError (msg : string) : ErrorObject :=
  MkError ShopifyNotFoundError "ShopifyNotFoundError" msg [].
Definition newShopifyValidationError (msg : string) (ues : list Types.ShopifyUserError)
  : ErrorObject :=
  MkError ShopifyValidationError "ShopifyValidationError" msg ues.

(** [e instanceof ShopifyAPIError]: the four other Shopify classes extend it. *)
Definition isShopifyAPIError (c : ErrorClass) : bool :=
  match c with
  | PlainError => false
  | _ => true
  end.

(** [e instanceof ShopifyValidationError] *)
Definition isShopifyValidationError (c : ErrorClass) : bool :=
  match c with
  | ShopifyValidationError => true
  | _ => false
  end.

(** [ShopifyGraphQLClient.handleError] *)
Definition handleError (error : Thrown) : ErrorObject :=
  match error with
  | ThrownError e =>
      let m := errMessage e in
      if JsString.includes m "Throttled" then
        newShopifyRateLimitError "Rate limit exceeded. Please retry after a moment."
      else if JsString.includes m "401" || JsString.includes m "Unauthorized" then
        newShopifyAuthenticationError "Invalid access token or authentication failed."
      else if JsString.includes m "404" || JsString.includes m "not found" then
        newShopifyNotFoundError m
      else newShopifyAPIError m
  | ThrownOther _ => newShopifyAPIError "An unknown error occurred"
  end.

End Errors.

(* ------------------------------------------------------------------ *)
(** * The identifier codec *)

(** The [id] argument of [toGid] is [string | number]. A number is taken as
    an integer. Up to 2^53 - 1 in magnitude (the safe integers) [String]
    prints its exact decimal digits, which is what [jsString] gives. Beyond
    that JavaScript prints the shortest digits that read back as the same
    number, from 10^21 on with an exponent, and a number that is not an
    integer prints with a point: those are floating point, outside this
    embedding, and the round trip of the codec is stated for safe integers. *)
Inductive Id :=
| IdString (s : string)
| IdNumber (n : Z).

Module Gid.

(** [String(id)], for a string and for a safe integer *)
Definition jsString (id : Id) : string :=
  match id with
  | IdString s => s
  | IdNumber n => NilZero.string_of_int (Z.to_int n)
  end.

Definition gidPrefix : string := "gid://shopify/".

(** [ShopifyGraphQLClient.toGid] *)
Definition toGid (type : string) (id : Id) : string :=
  let idStr := jsString id in
  if JsString.startsWith idStr gidPrefix then idStr
  else gidPrefix ++ type ++ "/" ++ idStr.

(** [\w+\/(\d+)], the part of the pattern after the literal prefix. *)
Definition gidTail : list Regex.item :=
  [Regex.Item JsString.isWord Regex.Many1 false; Regex.lit "/";
   Regex.Item JsString.isDigit Regex.Many1 true].

(** [/gid:\/\/shopify\/\w+\/(\d+)/] *)
Definition gidRegex : Regex.regex :=
  Regex.Regex false (Regex.lits gidPrefix ++ gidTail)%list false.

(** [ShopifyGraphQLClient.fromGid] *)
Definition fromGid (gid : string) : string :=
  match Regex.strMatch gidRegex gid with
  | Some m => Regex.group1 m
  | None => gid
  end.

(** A type tag the pattern of [fromGid] accepts: one or more word
    characters. *)
Definition wordTag (type : string) : Prop :=
  type <> "" /\ JsString.allOf JsString.isWord type = true.

(** A short identifier that is numeric: a non-empty string of decimal
    digits, or a number that is a non-negative integer printed in plain
    decimal notation. *)
Definition numericId (id : Id) : Prop :=
  match id with
  | IdString d => d <> "" /\ JsString.allOf JsString.isDigit d = true
  | IdNumber n => (0 <= n < 10 ^ 21)%Z
  end.

(** [Number.MAX_SAFE_INTEGER] *)
Definition MAX_SAFE_INTEGER : Z := 2 ^ 53 - 1.

(** A short identifier whose stringified form is a non-empty string of
    decimal digits: such a string, or a number that is a non-negative safe
    integer. *)
Definition safeNumericId (id : Id) : Prop :=
  match id with
  | IdString d => d <> "" /\ JsString.allOf JsString.isDigit d = true
  | IdNumber n => (0 <= n <= MAX_SAFE_INTEGER)%Z
  end.

(** The pattern of [fromGid] read as a condition on the text: somewhere in
    [g] stands the prefix, a non-empty run of word characters, a slash and a
    non-empty run of digits. *)
Definition matchesGidPattern (g : string) : Prop :=
  exists before type digits rest,
    g = before ++ gidPrefix ++ type ++ "/" ++ digits ++ rest
    /\ type <> "" /\ JsString.allOf JsString.isWord type = true
    /\ digits <> "" /\ JsString.allOf JsString.isDigit digits = true.

End Gid.

(* ------------------------------------------------------------------ *)
(** * Construction of the client and its endpoint *)

(** [Partial<ShopifyConfig>]: every property may be missing. *)
Record PartialConfig := Partial {
  cfgStoreUrl : option string;
  cfgAccessToken : option string;
  cfgApiVersion : option string
}.

(** The three variables of [process.env] the constructor reads. *)
Record Env := MkEnv {
  SHOPIFY_STORE_URL : option string;
  SHOPIFY_ACCESS_TOKEN : option string;
  SHOPIFY_API_VERSION : option string
}.

(** The client: its configuration and the [GraphQLClient] it builds, which is
    an endpoint and the request headers. *)
Record Client := MkClient {
  config : Types.ShopifyConfig;
  endpoint : string;
  headers : list (string * string)
}.

Module ClientSetup.
Import Types.

Definition DEFAULT_API_VERSION : string := "2025-01".

(** [/^https?:\/\//] *)
Definition schemeRegex : Regex.regex :=
  Regex.Regex true
    (Regex.lits "http" ++ [Regex.Item (Ascii.eqb "s") Regex.Maybe false]
       ++ Regex.lits "://")%list
    false.

(** [/\/$/] *)
Definition trailingSlashRegex : Regex.regex :=
  Regex.Regex false [Regex.lit "/"] true.

(** The first statement of the constructor. *)
Definition resolveConfig (cfg : PartialConfig) (env : Env) : ShopifyConfig :=
  {| storeUrl :=
       JsString.orElse (cfgStoreUrl cfg) (JsString.orElse (SHOPIFY_STORE_URL env) "");
     accessToken :=
       JsString.orElse (cfgAccessToken cfg) (JsString.orElse (SHOPIFY_ACCESS_TOKEN env) "");
     apiVersion :=
       JsString.orElse (cfgApiVersion cfg)
         (JsString.orElse (SHOPIFY_API_VERSION env) DEFAULT_API_VERSION) |}.

(** [validateConfig]: [None] when it returns, the error when it throws. *)
Definition validateConfig (c : ShopifyConfig) : option ErrorObject :=
  if negb (JsString.truthy (storeUrl c)) then
    Some (Errors.newError
      "SHOPIFY_STORE_URL is required. Set it as an environment variable or pass it in the config.")
  else if negb (JsString.truthy (accessToken c)) then
    Some (Errors.newError
      "SHOPIFY_ACCESS_TOKEN is required. Set it as an environment variable or pass it in the config.")
  else None.

Definition normalizedStoreUrl (url : string) : string :=
  Regex.replaceEmpty trailingSlashRegex (Regex.replaceEmpty schemeRegex url).

(** [buildEndpoint] *)
Definition buildEndpoint (c : ShopifyConfig) : string :=
  "https://" ++ normalizedStoreUrl (storeUrl c)
    ++ "/admin/api/" ++ apiVersion c ++ "/graphql.json".

(** [new ShopifyGraphQLClient(config)] *)
Definition construct (cfg : PartialConfig) (env : Env) : Outcome Client :=
  let c := resolveConfig cfg env in
  match validateConfig c with
  | Some e => Threw (ThrownError e)
  | None =>
      Returned {| config := c;
                  endpoint := buildEndpoint c;
                  headers := [("X-Shopify-Access-Token", accessToken c);
                              ("Content-Type", "application/json")] |}
  end.

(** The normalisation in the words of the specification: a leading
    [http://] or [https://] is removed, then a trailing slash. *)
Definition stripScheme_spec (url : string) : string :=
  match JsString.dropPrefix "https://" url with
  | Some rest => rest
  | None =>
      match JsString.dropPrefix "http://" url with
      | Some rest => rest
      | None => url
      end
  end.

Fixpoint stripTrailingSlash_spec (s : string) : string :=
  match s with
  | EmptyString => EmptyString
  | String c EmptyString => if Ascii.eqb c "/" then EmptyString else s
  | String c s' => String c (stripTrailingSlash_spec s')
  end.

Definition endpoint_spec (url version : string) : string :=
  "https://" ++ stripTrailingSlash_spec (stripScheme_spec url)
    ++ "/admin/api/" ++ version ++ "/graphql.json".

End ClientSetup.

(* ------------------------------------------------------------------ *)
(** * Values on the wire *)

(** A JSON value, for the parts of a request or response the gateway passes
    on without looking inside. *)
Inductive Json :=
| JNull
| JBool (b : bool)
| JNumber (n : Z)
| JString (s : string)
| JArray (xs : list Json)
| JObject (props : list (string * Json)).

(** The [variables] of a request: an object, as its properties in order. *)
Definition Variables := list (string * Json).

(** [{ ...obj, key: v }]: the property is overwritten in place when [obj]
    has it, and added at the end otherwise. *)
Fixpoint setProp {V : Type} (key : string) (v : V) (obj : list (string * V))
  : list (string * V) :=
  match obj with
  | [] => [(key, v)]
  | (k, w) :: rest =>
      if String.eqb k key then (k, v) :: rest else (k, w) :: setProp key v rest
  end.

(** [obj[key]]: [None] is [undefined]. *)
Fixpoint getProp {V : Type} (obj : list (string * V)) (key : string) : option V :=
  match obj with
  | [] => None
  | (k, w) :: rest => if String.eqb k key then Some w else getProp rest key
  end.

(** [Object.keys(obj)] *)
Definition keys {V : Type} (obj : list (string * V)) : list string := map fst obj.

(* ------------------------------------------------------------------ *)
(** * [mutate] *)

Module Mutation.
Import Types.

(** What [mutate] casts [response[key]] to:
    [{ userErrors?: ShopifyUserError[]; [key: string]: unknown }], or [null]
    (which the optional chaining allows for). *)
Inductive ResultValue :=
| RNull
| RObject (userErrors : option (list ShopifyUserError)) (others : list (string * Json)).

(** The response object: its top-level properties in the order of
    [Object.keys]. *)
Definition Response := list (string * ResultValue).

Record MutationResult := MkResult {
  success : bool;
  data : option Response;          (* T | null *)
  userErrors : list ShopifyUserError
}.

(** [mutationName || Object.keys(response)[0]]: [None] is [undefined], and
    an empty name is falsy like a missing one. *)
Definition resultKey (mutationName : option string) (response : Response)
  : option string :=
  match mutationName with
  | Some n => if JsString.truthy n then Some n else hd_error (keys response)
  | None => hd_error (keys response)
  end.

(** A property key that is [undefined] reads the property ["undefined"]. *)
Definition propertyKey (k : option string) : string :=
  match k with
  | Some s => s
  | None => "undefined"
  end.

(** [result?.userErrors] *)
Definition userErrorsOf (result : option ResultValue) : option (list ShopifyUserError) :=
  match result with
  | Some (RObject ue _) => ue
  | Some RNull => None
  | None => None
  end.

Section Mutate.
(** [this.client.request]: one call of the transport. *)
Variable request : string -> Variables -> Outcome Response.

Definition mutate (mutation : string) (variables : Variables)
           (mutationName : option string) : Outcome MutationResult :=
  match request mutation variables with
  | Returned response =>
      let key := resultKey mutationName response in
      let result := getProp response (propertyKey key) in
      match userErrorsOf result with
      | Some ues =>
          if (0 <? Z.of_nat (List.length ues))%Z
          then Returned {| success := false; data := None; userErrors := ues |}
          else Returned {| success := true; data := Some response; userErrors := [] |}
      | None =>
          Returned {| success := true; data := Some response; userErrors := [] |}
      end
  | Threw e => Threw (ThrownError (Errors.handleError e))
  end.
End Mutate.

(** Mocked responses: a rejected mutation, an accepted one, and a response
    without [userErrors]. *)
Definition titleBlank : ShopifyUserError :=
  UserError (Some ["title"]) "Title can't be blank" None.

Definition rejected : Response :=
  [("productCreate", RObject (Some [titleBlank]) [("product", JNull)])].

Definition created : Response :=
  [("productCreate",
    RObject (Some []) [("product", JObject [("id", JString "gid://shopify/Product/1")])])].

Definition noErrorsField : Response :=
  [("shop", RObject None [("name", JString "demo")]); ("node", RNull)].

End Mutation.

(* ------------------------------------------------------------------ *)
(** * [query] and [queryAll] *)

Module Paging.

(** The page information [extractNodes] hands to [queryAll]. *)
Record PageCursor := MkPageCursor {
  hasNextPage : bool;
  endCursor : option string       (* string | null *)
}.

Record Page (N : Type) := MkPage { nodes : list N; pageInfo : PageCursor }.
Arguments MkPage {N} nodes pageInfo.
Arguments nodes {N} p.
Arguments pageInfo {N} p.

(** What a run of [queryAll] leaves: the state of the transport, the lines
    written with [console.warn], and the value returned or thrown. *)
Record Run (S N : Type) := MkRun {
  transport : S;
  warnings : list string;
  result : Outcome (list N)
}.
Arguments MkRun {S N} transport warnings result.
Arguments transport {S N} r.
Arguments warnings {S N} r.
Arguments result {S N} r.

(** The own property names of the array [queryAll] returns
    ([const allNodes: N[] = []], filled by [push] only): its indices in
    decimal, and [length]. *)
Definition arrayKeys {N : Type} (xs : list N) : list string :=
  (map (fun i => NilZero.string_of_uint (Nat.to_uint i)) (seq 0 (List.length xs))
   ++ ["length"])%list.

Definition SAFETY_LIMIT : Z := 10000.

Definition WARNING : string := "Query pagination exceeded 10000 items, stopping.".

Definition afterValue (cursor : option string) : Json :=
  match cursor with
  | Some c => JString c
  | None => JNull
  end.

Section Client.
Context {S T N : Type}.
(** [this.client.request]: the transport may answer differently from one
    call to the next, so its state is threaded through. *)
Variable request : S -> string -> Variables -> S * Outcome T.

(** [query] *)
Definition query (st : S) (q : string) (variables : Variables) : S * Outcome T :=
  match request st q variables with
  | (st', Returned response) => (st', Returned response)
  | (st', Threw e) => (st', Threw (ThrownError (Errors.handleError e)))
  end.

Variable extractNodes : T -> Page N.

(** The [while] loop of [queryAll]; one unit of fuel per test of the
    loop condition. *)
Fixpoint queryAllLoop (fuel : nat) (q : string) (variables : Variables)
         (st : S) (allNodes : list N) (hasNext : bool) (cursor : option string)
  : option (Run S N) :=
  match fuel with
  | O => None
  | Datatypes.S fuel' =>
      if hasNext then
        match query st q (setProp "after" (afterValue cursor) variables) with
        | (st', Returned response) =>
            let page := extractNodes response in
            let allNodes' := (allNodes ++ nodes page)%list in
            if (SAFETY_LIMIT <? Z.of_nat (List.length allNodes'))%Z then
              Some (MkRun st' [WARNING] (Returned allNodes'))
            else
              queryAllLoop fuel' q variables st' allNodes'
                           (hasNextPage (pageInfo page)) (endCursor (pageInfo page))
        | (st', Threw e) => Some (MkRun st' [] (Threw e))
        end
      else Some (MkRun st [] (Returned allNodes))
  end.

(** [queryAll] *)
Definition queryAll (fuel : nat) (q : string) (variables : Variables) (st : S)
  : option (Run S N) :=
  queryAllLoop fuel q variables st [] true None.


End Client.

(** A mocked transport that serves a fixed list of pages one after the
    other, whatever the cursor asked for, and fails once they are used up. *)
Definition mockRequest {N : Type} (st : list (Page N)) (_ : string) (_ : Variables)
  : list (Page N) * Outcome (Page N) :=
  match st with
  | p :: rest => (rest, Returned p)
  | [] => ([], Threw (ThrownError (Errors.newError "no more pages")))
  end.

(** A mocked transport that serves the same page for ever. *)
Definition constRequest {N : Type} (p : Page N) (st : unit) (_ : string) (_ : Variables)
  : unit * Outcome (Page N) :=
  (st, Returned p).

(** The [extractNodes] callback of the mocked transports, whose responses
    are pages already. *)
Definition self {A : Type} (a : A) : A := a.


(** Anomalous pages: a next page is announced and no cursor is given.
    One has no items, one has an item. *)
Definition emptyAnomaly : Page nat := MkPage [] (MkPageCursor true None).

(** The mocked pages of the three-page scenario: 2, 2 and 1 items, out of
    order across the pages, and [hasNextPage] true, true and false. *)
Definition threePages : list (Page nat) :=
  [MkPage [30; 10] (MkPageCursor true (Some "a"));
   MkPage [20; 50] (MkPageCursor true (Some "b"));
   MkPage [40] (MkPageCursor false None)].

(** An anomalous page with an item, followed by a last page. *)
Definition anomalyThenLast : list (Page nat) :=
  [MkPage [1] (MkPageCursor true None); MkPage [2] (MkPageCursor false None)].

End Paging.

(* ------------------------------------------------------------------ *)
(** * [utils/pagination.ts] *)

Module Pagination.
Import Types.

Definition connectionToResult {T : Type} (connection : Connection T)
  : PaginatedResult T :=
  {| items := map node (edges connection); pageInfo := connPageInfo connection |}.

Definition extractNodes {T : Type} (connection : Connection T) : list T :=
  map node (edges connection).

Definition createPageInfo (hasNext hasPrevious : bool)
           (startC endC : option string) : PageInfo :=
  {| hasNextPage := hasNext; hasPreviousPage := hasPrevious;
     startCursor := startC; endCursor := endC |}.

Definition combinePaginatedResults {T : Type} (results : list (PaginatedResult T))
  : PaginatedResult T :=
  match results with
  | [] =>
      {| items := [];
         pageInfo := {| hasNextPage := false; hasPreviousPage := false;
                        startCursor := None; endCursor := None |} |}
  | firstResult :: _ =>
      let allItems := flat_map items results in
      let lastResult := List.last results firstResult in
      {| items := allItems;
         pageInfo := {| hasNextPage := hasNextPage (pageInfo lastResult);
                        hasPreviousPage := hasPreviousPage (pageInfo firstResult);
                        startCursor := startCursor (pageInfo firstResult);
                        endCursor := endCursor (pageInfo lastResult) |} |}
  end.

(** A mocked page of numbers. *)
Definition page (xs : list nat) (next : bool) (startC endC : option string)
  : PaginatedResult nat :=
  MkPaginated xs (MkPageInfo next false startC endC).

End Pagination.

(* ------------------------------------------------------------------ *)
(** * [utils/error-handler.ts] *)

Module ErrorHandler.

(** [details]: the only property the converter ever puts there. *)
Inductive Details :=
| DetailsUserErrors (userErrors : list Types.ShopifyUserError).

Record ToolError := MkToolError {
  code : string;
  message : string;
  details : option Details
}.

Record ToolResult (T : Type) := MkToolResult {
  success : bool;
  data : option T;
  error : option ToolError
}.
Arguments MkToolResult {T} success data error.
Arguments success {T} _.
Arguments data {T} _.
Arguments error {T} _.

Definition successResult {T : Type} (d : T) : ToolResult T :=
  {| success := true; data := Some d; error := None |}.

Definition errorResult {T : Type} (c m : string) (d : option Details) : ToolResult T :=
  {| success := false; data := None;
     error := Some {| code := c; message := m; details := d |} |}.

Definition formatUserErrors {T : Type} (userErrors : list Types.ShopifyUserError)
  : ToolResult T :=
  let messages :=
    map (fun e =>
           let f := match Types.field e with
                    | Some path => JsString.join "." path
                    | None => "unknown"
                    end in
           f ++ ": " ++ Types.message e) userErrors in
  errorResult "VALIDATION_ERROR" (JsString.join "; " messages)
              (Some (DetailsUserErrors userErrors)).

(** [error.name.replace('Shopify', '').replace('Error', '').toUpperCase()] *)
Definition codeOfName (name : string) : string :=
  JsString.toUpperCase
    (JsString.replaceFirst (JsString.replaceFirst name "Shopify") "Error").

Definition handleToolError {T : Type} (error : Thrown) : ToolResult T :=
  match error with
  | ThrownError e =>
      if Errors.isShopifyValidationError (errClass e) then
        formatUserErrors (errUserErrors e)
      else if Errors.isShopifyAPIError (errClass e) then
        let c := codeOfName (errName e) in
        errorResult (if JsString.truthy c then c else "API_ERROR") (errMessage e) None
      else errorResult "UNKNOWN_ERROR" (errMessage e) None
  | ThrownOther _ => errorResult "UNKNOWN_ERROR" "An unexpected error occurred" None
  end.

Definition withErrorHandling {T A : Type} (handler : A -> Outcome (ToolResult T))
           (args : A) : Outcome (ToolResult T) :=
  match handler args with
  | Returned r => Returned r
  | Threw e => Returned (handleToolError e)
  end.

(** The values of [ErrorCodes]. *)
Definition ErrorCodes : list string :=
  ["NOT_FOUND"; "VALIDATION_ERROR"; "AUTHENTICATION_ERROR"; "RATE_LIMIT_ERROR";
   "API_ERROR"; "INVALID_INPUT"; "UNKNOWN_ERROR"].

(** The handler-local kinds the specification lists for the envelope. *)
Definition handlerKinds : list string :=
  ["NOT_FOUND"; "INVALID_INPUT"; "API_ERROR"; "VALIDATION_ERROR"; "UNKNOWN_ERROR"].

End ErrorHandler.

(* ------------------------------------------------------------------ *)
(** * The process-wide client of [shopify-graphql.ts] *)

Module Singleton.

(** A configuration value that [||] passes over: missing, or empty. *)
Definition unset (v : option string) : Prop := v = None \/ v = Some "".

(** [clientInstance]: [None] is [null]. *)
Definition Instance := option Client.

(** The default value [{}] of the constructor's parameter. *)
Definition emptyConfig : PartialConfig := Partial None None None.

(** [getShopifyClient(config?)]: a new client is constructed when there is
    none yet or when a configuration object is passed (any object is truthy);
    when the constructor throws, the assignment does not happen. *)
Definition getShopifyClient (cfg : option PartialConfig) (env : Env)
           (clientInstance : Instance) : Instance * Outcome Client :=
  match clientInstance, cfg with
  | Some c, None => (clientInstance, Returned c)
  | _, _ =>
      match ClientSetup.construct
              (match cfg with Some c => c | None => emptyConfig end) env with
      | Returned c => (Some c, Returned c)
      | Threw e => (clientInstance, Threw e)
      end
  end.

(** [resetShopifyClient] *)
Definition resetShopifyClient (clientInstance : Instance) : Instance := None.

(** [initializeShopifyClient(config)] *)
Definition initializeShopifyClient (cfg : Types.ShopifyConfig) (env : Env)
           (clientInstance : Instance) : Instance * Outcome Client :=
  match ClientSetup.construct
          (Partial (Some (Types.storeUrl cfg)) (Some (Types.accessToken cfg))
                   (Some (Types.apiVersion cfg))) env with
  | Returned c => (Some c, Returned c)
  | Threw e => (clientInstance, Threw e)
  end.

(** A client already in place, for the scenarios. *)
Definition demoClient : Client :=
  {| config := Types.Config "demo.myshopify.com" "demo-token" "2025-01";
     endpoint := "https://demo.myshopify.com/admin/api/2025-01/graphql.json";
     headers := [("X-Shopify-Access-Token", "demo-token");
                 ("Content-Type", "application/json")] |}.

(** [getConfig]: a copy of the configuration. *)
Definition getConfig (c : Client) : Types.ShopifyConfig :=
  {| Types.storeUrl := Types.storeUrl (config c);
     Types.accessToken := Types.accessToken (config c);
     Types.apiVersion := Types.apiVersion (config c) |}.

End Singleton.

(* ------------------------------------------------------------------ *)
(** * [utils/pagination.ts], continued *)

Module PaginationArgs.

(** The [options] of [buildPaginationArgs]; a missing property is [None]. *)
Record Options := MkOptions {
  first : option Z;
  after : option string;
  last : option Z;
  before : option string
}.

(** [args.key = v] *)
Definition assign (key : string) (v : Json) (args : list (string * Json))
  : list (string * Json) := setProp key v args.

(** [buildPaginationArgs]: [first] and [last] are copied when they are not
    [undefined], [after] and [before] when they are truthy. *)
Definition buildPaginationArgs (options : Options) : list (string * Json) :=
  let args := [] in
  let args := match first options with
              | Some n => assign "first" (JNumber n) args
              | None => args
              end in
  let args := match after options with
              | Some s => if JsString.truthy s then assign "after" (JString s) args else args
              | None => args
              end in
  let args := match last options with
              | Some n => assign "last" (JNumber n) args
              | None => args
              end in
  let args := match before options with
              | Some s => if JsString.truthy s then assign "before" (JString s) args else args
              | None => args
              end in
  args.

End PaginationArgs.

(* ------------------------------------------------------------------ *)
(** * [utils/formatters.ts]: the helpers on strings and identifiers *)

(** A matcher like [Regex], for an expression with two capture groups:
    every item says which group it stands in (0 for none). *)
Module Regex2.

Record item := Item {
  cls : ascii -> bool;
  quant : Regex.quantifier;
  group : nat
}.

Record hit := Hit {
  matched : string;
  group1 : string;
  group2 : string;
  after : string
}.

Definition take (g : nat) (c : ascii) (h : hit) : hit :=
  {| matched := String c (matched h);
     group1 := if Nat.eqb g 1 then String c (group1 h) else group1 h;
     group2 := if Nat.eqb g 2 then String c (group2 h) else group2 h;
     after := after h |}.

Fixpoint star (p : ascii -> bool) (g : nat) (k : string -> option hit)
         (s : string) : option hit :=
  match s with
  | String c s' =>
      if p c then
        match star p g k s' with
        | Some h => Some (take g c h)
        | None => k s
        end
      else k s
  | EmptyString => k s
  end.

Definition finish (aend : bool) (s : string) : option hit :=
  if aend then
    match s with
    | EmptyString => Some (Hit "" "" "" "")
    | String _ _ => None
    end
  else Some (Hit "" "" "" s).

Fixpoint run (aend : bool) (its : list item) : string -> option hit :=
  match its with
  | [] => finish aend
  | it :: rest =>
      let k := run aend rest in
      match quant it with
      | Regex.Once => fun s =>
          match s with
          | String c s' =>
              if cls it c then option_map (take (group it) c) (k s') else None
          | EmptyString => None
          end
      | Regex.Maybe => fun s =>
          match s with
          | String c s' =>
              if cls it c then
                match k s' with
                | Some h => Some (take (group it) c h)
                | None => k s
                end
              else k s
          | EmptyString => k s
          end
      | Regex.Many1 => fun s =>
          match s with
          | String c s' =>
              if cls it c
              then option_map (take (group it) c) (star (cls it) (group it) k s')
              else None
          | EmptyString => None
          end
      end
  end.

Fixpoint scan (aend : bool) (its : list item) (s : string) : option (string * hit) :=
  match run aend its s with
  | Some h => Some (EmptyString, h)
  | None =>
      match s with
      | String c s' =>
          option_map (fun bh => (String c (fst bh), snd bh)) (scan aend its s')
      | EmptyString => None
      end
  end.

(** [s.match(r)] for an unanchored expression without the global flag. *)
Definition strMatch (its : list item) (s : string) : option hit :=
  option_map snd (scan false its s).

Definition lit (c : ascii) : item := Item (Ascii.eqb c) Regex.Once 0.

Fixpoint lits (s : string) : list item :=
  match s with
  | EmptyString => []
  | String c s' => lit c :: lits s'
  end.

(** Reading an expression with one group out of one with two: the items of
    group [k] become the group, the others stand outside. *)
Definition only (k : nat) (it : item) : Regex.item :=
  Regex.Item (cls it) (quant it) (Nat.eqb (group it) k).

Definition hitOf (k : nat) (h : hit) : Regex.hit :=
  Regex.Hit (matched h) (if Nat.eqb k 1 then group1 h else group2 h) (after h).

End Regex2.

Module Formatters.

(** [truncate(text, maxLength)]; [maxLength] is taken as an integer.
    [substring(0, n)] reads a negative [n] as 0 and stops at the end of the
    text. *)
Definition truncate (text : option string) (maxLength : Z) : string :=
  match text with
  | None => ""
  | Some t =>
      if negb (JsString.truthy t) then ""
      else if (Z.of_nat (String.length t) <=? maxLength)%Z then t
      else String.substring 0 (Z.to_nat (maxLength - 3)) t ++ "..."
  end.

(** [getConnectionCount]: [connection?.edges?.length || 0] *)
Definition getConnectionCount {T : Type} (connection : option (Types.Connection T)) : Z :=
  match connection with
  | Some c => Z.of_nat (List.length (Types.edges c))
  | None => 0%Z
  end.

(** [ensureGid] *)
Definition ensureGid (type : string) (id : Id) : string := Gid.toGid type id.

(** [/gid:\/\/shopify\/(\w+)\/(\d+)/] *)
Definition parseIdItems : list Regex2.item :=
  (Regex2.lits Gid.gidPrefix
     ++ [Regex2.Item JsString.isWord Regex.Many1 1; Regex2.lit "/";
         Regex2.Item JsString.isDigit Regex.Many1 2])%list.


Record ParsedId := MkParsedId {
  type : option string;            (* string | null *)
  numericId : string
}.

(** [parseId] *)
Definition parseId (id : string) : ParsedId :=
  match Regex2.strMatch parseIdItems id with
  | Some m => {| type := Some (Regex2.group1 m); numericId := Regex2.group2 m |}
  | None => {| type := None; numericId := id |}
  end.

End Formatters.

(* ------------------------------------------------------------------ *)
(** * [tools/index.ts] and [server.ts]: the registry and the dispatch *)

Module Server.
Import ErrorHandler.

Section Tools.
(** What the handlers act on (the network, the process-wide client). *)
Context {World : Type}.

(** A handler is an [async] function of the raw input. *)
Definition Handler := World -> Json -> World * Outcome (ToolResult Json).

Record ToolDefinition := MkTool {
  name : string;
  description : string;
  inputSchema : Json;
  handler : Handler
}.

(** [new Map(entries)]: the entries are set one after the other, so a later
    entry with a key already present replaces the value. *)
Definition newMap {V : Type} (entries : list (string * V)) : list (string * V) :=
  fold_left (fun m kv => setProp (fst kv) (snd kv) m) entries [].

(** [map.get(key)] *)
Definition mapGet {V : Type} (m : list (string * V)) (key : string) : option V :=
  getProp m key.

(** [toolHandlerMap] *)
Definition toolHandlerMap (allToolDefinitions : list ToolDefinition)
  : list (string * Handler) :=
  newMap (map (fun tool => (name tool, handler tool)) allToolDefinitions).

(** [toolNames] *)
Definition toolNames (allToolDefinitions : list ToolDefinition) : list string :=
  map name allToolDefinitions.

(** What is handed to [JSON.stringify] for the text of the answer. *)
Inductive Payload :=
| DataPayload (d : option Json)                 (* result.data *)
| ErrorPayload (e : option ToolError)           (* { error: result.error } *)
| ExecutionErrorPayload (code message : string). (* { error: { code, message } } *)

Record CallToolResult := MkCallToolResult {
  content : Payload;
  isError : option bool                          (* isError?: true *)
}.

(** The request handler either answers or throws an [McpError] with
    [ErrorCode.MethodNotFound]. *)
Inductive CallOutcome :=
| Answer (r : CallToolResult)
| MethodNotFound (message : string).

(** The handler of [CallToolRequestSchema]. *)
Definition callTool (allToolDefinitions : list ToolDefinition) (w : World)
           (toolName : string) (args : option (list (string * Json)))
  : World * CallOutcome :=
  match mapGet (toolHandlerMap allToolDefinitions) toolName with
  | None => (w, MethodNotFound ("Unknown tool: " ++ toolName))
  | Some h =>
      match h w (match args with Some a => JObject a | None => JObject [] end) with
      | (w', Returned result) =>
          if success result
          then (w', Answer {| content := DataPayload (data result); isError := None |})
          else (w', Answer {| content := ErrorPayload (error result);
                              isError := Some true |})
      | (w', Threw e) =>
          let errorMessage :=
            match e with
            | ThrownError err => errMessage err
            | ThrownOther _ => "Unknown error occurred"
            end in
          (w', Answer {| content := ExecutionErrorPayload "TOOL_EXECUTION_ERROR" errorMessage;
                         isError := Some true |})
      end
  end.
End Tools.

(** Handlers and a registry for the scenarios: the name [echo] is defined
    twice. *)
Definition okHandler : @Handler unit :=
  fun w input => (w, Returned (successResult input)).
Definition notFoundHandler : @Handler unit :=
  fun w _ => (w, Returned (errorResult "NOT_FOUND" "nothing there" None)).
Definition throwingHandler : @Handler unit :=
  fun w _ => (w, Threw (ThrownOther "not an Error")).

Definition demoTools : list (@ToolDefinition unit) :=
  [MkTool "echo" "first definition" JNull notFoundHandler;
   MkTool "boom" "always throws" JNull throwingHandler;
   MkTool "echo" "second definition" JNull okHandler].

(** The constant [missing] of [validateEnvironment]: the required variables
    that are unset or empty. *)
Definition missingVariables (env : Env) : list string :=
  map fst
      (filter (fun kv => negb (match snd kv with
                               | Some v => JsString.truthy v
                               | None => false
                               end))
              [("SHOPIFY_STORE_URL", SHOPIFY_STORE_URL env);
               ("SHOPIFY_ACCESS_TOKEN", SHOPIFY_ACCESS_TOKEN env)]).

(** [validateEnvironment]: [None] when it returns; otherwise the lines it
    writes on the error console and the code it exits the process with. *)
Definition validateEnvironment (env : Env) : option (list string * Z) :=
  match missingVariables env with
  | [] => None
  | missing =>
      Some (["Missing required environment variables: " ++ JsString.join ", " missing;
             "Please set these environment variables:";
             "  SHOPIFY_STORE_URL - Your Shopify store URL (e.g., your-store.myshopify.com)";
             "  SHOPIFY_ACCESS_TOKEN - Your Shopify Admin API access token";
             "  SHOPIFY_API_VERSION - (Optional) API version (default: 2025-01)"],
            1%Z)
  end.

(** How [startServer] goes on after its first two statements: the process
    has exited with a code, after lines on the error console, or the client
    has been initialised (or its constructor has thrown). *)
Inductive Startup :=
| Exited (exitCode : Z) (console : list string)
| Initialised (instance : Singleton.Instance) (client : Outcome Client).

(** [process.env.X!]: the value is passed on as it is. The line is reached
    only when the variable is set; an unset one reads as the empty string. *)
Definition envValue (v : option string) : string :=
  match v with
  | Some s => s
  | None => ""
  end.

(** [startServer], up to the initialisation of the client (connecting the
    transport of the SDK comes after). *)
Definition startServer (env : Env) (clientInstance : Singleton.Instance) : Startup :=
  match validateEnvironment env with
  | Some (console, exitCode) => Exited exitCode console
  | None =>
      let (inst, c) :=
        Singleton.initializeShopifyClient
          {| Types.storeUrl := envValue (SHOPIFY_STORE_URL env);
             Types.accessToken := envValue (SHOPIFY_ACCESS_TOKEN env);
             Types.apiVersion := JsString.orElse (SHOPIFY_API_VERSION env) "2025-01" |}
          env clientInstance in
      Initialised inst c
  end.

End Server.

(* ------------------------------------------------------------------ *)
(** * [tools/products.ts]: [deleteProduct] *)

Module Products.
Import ErrorHandler.

(** [DELETE_PRODUCT] of [graphql/mutations/products.ts]. *)
Definition DELETE_PRODUCT : string := "
  mutation DeleteProduct($input: ProductDeleteInput!) {
    productDelete(input: $input) {
      deletedProductId
      userErrors {
        field
        message
        code
      }
    }
  }
".

(** What a handler acts on: the environment of the process and the
    process-wide client. *)
Record World := MkWorld {
  env : Env;
  clientInstance : Singleton.Instance
}.

Section Handler.
(** The network behind the [GraphQLClient] of a client: what a request to
    the endpoint, with the headers, answers. *)
Variable network : string -> list (string * string) -> string -> Variables
                   -> Outcome Mutation.Response.

(** [client.mutate] *)
Definition clientMutate (client : Client) :=
  Mutation.mutate (network (endpoint client) (headers client)).

(** The [try] block of [deleteProduct]. *)
Definition deleteProductTry (w : World) (id : string)
  : World * Outcome (ToolResult Json) :=
  match Singleton.getShopifyClient None (env w) (clientInstance w) with
  | (inst, Threw e) => (MkWorld (env w) inst, Threw e)
  | (inst, Returned client) =>
      let w' := MkWorld (env w) inst in
      let gid := Gid.toGid "Product" (IdString id) in
      match clientMutate client DELETE_PRODUCT
                         [("input", JObject [("id", JString gid)])]
                         (Some "productDelete") with
      | Threw e => (w', Threw e)
      | Returned result =>
          if negb (Mutation.success result) then
            (w', Returned (errorResult "VALIDATION_ERROR" "Failed to delete product"
                             (Some (DetailsUserErrors (Mutation.userErrors result)))))
          else
            (w', Returned (successResult
                             (JObject [("message", JString "Product deleted successfully");
                                       ("deletedProductId", JString id)])))
      end
  end.

(** [deleteProduct]: whatever the [try] block throws is converted. *)
Definition deleteProduct (w : World) (id : string)
  : World * Outcome (ToolResult Json) :=
  match deleteProductTry w id with
  | (w', Returned r) => (w', Returned r)
  | (w', Threw e) => (w', Returned (handleToolError e))
  end.
End Handler.

(** The success envelope of [deleteProduct] and the variables of its
    request. *)
Definition deleted (id : string) : ToolResult Json :=
  successResult (JObject [("message", JString "Product deleted successfully");
                          ("deletedProductId", JString id)]).

Definition deleteVariables (id : string) : Variables :=
  [("input", JObject [("id", JString (Gid.toGid "Product" (IdString id)))])].

(** Scenarios: a network that refuses the deletion, one that accepts it, a
    world with a client in place and one without any configuration. *)
Definition noSuchProduct : Types.ShopifyUserError :=
  Types.UserError (Some ["id"]) "Product does not exist" None.

Definition deleteRejected : Mutation.Response :=
  [("productDelete", Mutation.RObject (Some [noSuchProduct]) [("deletedProductId", JNull)])].

Definition deleteAccepted : Mutation.Response :=
  [("productDelete",
    Mutation.RObject (Some []) [("deletedProductId", JString "gid://shopify/Product/7")])].

Definition rejectingNetwork (_ : string) (_ : list (string * string)) (_ : string)
           (_ : Variables) : Outcome Mutation.Response := Returned deleteRejected.

Definition acceptingNetwork (_ : string) (_ : list (string * string)) (_ : string)
           (_ : Variables) : Outcome Mutation.Response := Returned deleteAccepted.

Definition readyWorld : World := MkWorld (MkEnv None None None) (Some Singleton.demoClient).

Definition bareWorld : World := MkWorld (MkEnv None None None) None.

End Products.

(* ------------------------------------------------------------------ *)
(** * A transport that keeps a record of its requests *)

Module Recording.
Import Paging.

(** The pages still to serve, and the [after] variable of every request
    made so far, latest first. *)
Definition Tape (N : Type) : Type := (list (Page N) * list (option Json))%type.

Definition recordingRequest {N : Type} (st : Tape N) (_ : string) (variables : Variables)
  : Tape N * Outcome (Page N) :=
  match fst st with
  | p :: rest => ((rest, getProp variables "after" :: snd st), Returned p)
  | [] => (([], getProp variables "after" :: snd st),
           Threw (ThrownError (Errors.newError "no more pages")))
  end.

(** A transport whose every request fails with the same thrown value. *)
Definition failingRequest {T : Type} (e : Thrown) (st : unit) (_ : string) (_ : Variables)
  : unit * Outcome T :=
  (st, Threw e).

(** The pages of a well-behaved source: every page but the last announces
    a next page, the last one does not. *)
Definition chained {N : Type} (pages : list (Page N)) (lastPage : Page N) : Prop :=
  Forall (fun p => hasNextPage (pageInfo p) = true) pages
  /\ hasNextPage (pageInfo lastPage) = false.

(** All the items of a list of pages, page after page. *)
Definition allNodesOf {N : Type} (pages : list (Page N)) : list N := flat_map nodes pages.

(** The forward cursor of a page. *)
Definition cursorOf {N : Type} (p : Page N) : option string := endCursor (pageInfo p).

End Recording.

(* ================================================================== *)
(** * Properties *)

(* ------------------------------------------------------------------ *)
(** ** Strings *)

Module JsStringFacts.
Import JsString.

Lemma append_assoc (a b c : string) : (a ++ b) ++ c = a ++ (b ++ c).
Proof. induction a as [|x a IH]; simpl; [reflexivity | now rewrite IH]. Qed.

Lemma append_nil_r (a : string) : a ++ "" = a.
Proof. induction a as [|x a IH]; simpl; [reflexivity | now rewrite IH]. Qed.

Lemma dropPrefix_spec (p s r : string) : dropPrefix p s = Some r <-> s = p ++ r.
Proof.
  revert s; induction p as [|a p IH]; intros s; simpl.
  - split; congruence.
  - destruct s as [|b s]; [split; discriminate|].
    destruct (Ascii.eqb_spec a b) as [->|ne].
    + rewrite IH. split; [intros -> | intros [= ->]]; reflexivity.
    + split; [discriminate | intros [= e _]; congruence].
Qed.

Lemma dropPrefix_append (p r : string) : dropPrefix p (p ++ r) = Some r.
Proof. now apply dropPrefix_spec. Qed.

Lemma prefix_spec (p s : string) : String.prefix p s = true <-> exists r, s = p ++ r.
Proof.
  revert s; induction p as [|a p IH]; intros s.
  - destruct s; simpl; split; eauto.
  - destruct s as [|b s]; simpl.
    + split; [discriminate | intros [r H]; discriminate].
    + destruct (ascii_dec a b) as [->|ne].
      * rewrite IH. split; intros [r H]; exists r; congruence.
      * split; [discriminate | intros [r H]; congruence].
Qed.

Lemma includes_unfold (s p : string) :
  includes s p =
    if String.prefix p s then true
    else match s with
         | EmptyString => false
         | String _ s' => includes s' p
         end.
Proof. destruct s; reflexivity. Qed.

(** [includes] is the substring relation. *)
Lemma includes_spec (s p : string) :
  includes s p = true <-> exists before rest, s = before ++ p ++ rest.
Proof.
  split.
  - induction s as [|c s IH]; rewrite includes_unfold;
      destruct (String.prefix p _) eqn:E.
    + apply prefix_spec in E as [r ->]. now exists "", r.
    + discriminate.
    + apply prefix_spec in E as [r ->]. now exists "", r.
    + intros H. destruct (IH H) as (b & r & ->). now exists (String c b), r.
  - intros (b & r & ->). induction b as [|c b IH]; rewrite includes_unfold.
    + replace (String.prefix p ("" ++ p ++ r)) with true; [reflexivity|].
      symmetry. apply prefix_spec. now exists r.
    + destruct (String.prefix p _); [reflexivity | exact IH].
Qed.

Lemma allOf_append (p : ascii -> bool) (a b : string) :
  allOf p (a ++ b) = allOf p a && allOf p b.
Proof. induction a as [|x a IH]; simpl; [reflexivity | now rewrite IH, andb_assoc]. Qed.

End JsStringFacts.

(* ------------------------------------------------------------------ *)
(** ** The matcher against the declarative reading of an expression *)

Module RegexFacts.
Import JsString JsStringFacts Regex.

Lemma takeAll_nil g h : takeAll g "" h = h.
Proof. destruct h; unfold takeAll; simpl; now destruct g. Qed.

Lemma take_takeAll g c cs h : take g c (takeAll g cs h) = takeAll g (String c cs) h.
Proof. unfold take, takeAll; simpl; now destruct g. Qed.

(** Every hit of [star] is a run of characters of the class followed by a
    hit of the continuation. *)
Lemma star_sound p g k s h :
  star p g k s = Some h ->
  exists cs s' h', s = cs ++ s' /\ allOf p cs = true /\ k s' = Some h'
                   /\ h = takeAll g cs h'.
Proof.
  revert h; induction s as [|c s IH]; intros h; simpl.
  - intros H. exists "", "", h. now rewrite takeAll_nil.
  - destruct (p c) eqn:Pc.
    + destruct (star p g k s) as [h1|] eqn:E.
      * intros [= <-]. destruct (IH _ eq_refl) as (cs & s' & h' & -> & A & K & ->).
        exists (String c cs), s', h'. simpl. rewrite Pc, A, take_takeAll. auto.
      * intros H. exists "", (String c s), h. now rewrite takeAll_nil.
    + intros H. exists "", (String c s), h. now rewrite takeAll_nil.
Qed.

(** [star] succeeds whenever the continuation succeeds after some run of
    characters of the class. *)
Lemma star_complete p g k cs s' :
  allOf p cs = true -> (exists h, k s' = Some h) ->
  exists h, star p g k (cs ++ s') = Some h.
Proof.
  intros A K. induction cs as [|c cs IH]; simpl in *.
  - destruct s' as [|c s']; simpl; [exact K|].
    destruct (p c); [|exact K].
    destruct (star p g k s'); [eauto | exact K].
  - apply andb_true_iff in A as [Pc A]. rewrite Pc.
    destruct (IH A) as [h ->]. eauto.
Qed.

(** Greedy: when the class ends where the run ends, [star] takes all of it. *)
Lemma star_greedy p g k cs s' h' :
  allOf p cs = true -> stopsAt p s' = true -> k s' = Some h' ->
  star p g k (cs ++ s') = Some (takeAll g cs h').
Proof.
  intros A St K. induction cs as [|c cs IH]; simpl in *.
  - rewrite takeAll_nil. destruct s' as [|c s']; simpl in *; [exact K|].
    apply negb_true_iff in St. now rewrite St.
  - apply andb_true_iff in A as [Pc A]. rewrite Pc, (IH A), take_takeAll.
    reflexivity.
Qed.

Lemma finish_sound aend s h :
  finish aend s = Some h -> h = Hit "" "" s /\ (aend = true -> s = "").
Proof.
  unfold finish. destruct aend, s; intros [= <-]; split; try reflexivity;
    try discriminate.
Qed.

(** Soundness of [run]: a hit splits the text into what was matched and what
    follows, and the matched part is derived by the items. *)
Lemma run_sound aend its : forall s h,
  run aend its s = Some h ->
  s = matched h ++ after h /\ derives its (matched h) (group1 h)
  /\ (aend = true -> after h = "").
Proof.
  induction its as [|it rest IH]; intros s h; simpl.
  - intros H. apply finish_sound in H as [-> E]. simpl. repeat split; [constructor | exact E].
  - destruct (quant it) eqn:Q.
    + destruct s as [|c s]; [discriminate|].
      destruct (cls it c) eqn:Pc; [|discriminate].
      destruct (run aend rest s) as [h1|] eqn:E; [|discriminate].
      intros [= <-]. destruct (IH _ _ E) as (-> & D & A). simpl.
      repeat split; [now apply derives_once | exact A].
    + assert (Skip : run aend rest s = Some h ->
                     s = matched h ++ after h /\ derives (it :: rest) (matched h) (group1 h)
                     /\ (aend = true -> after h = "")).
      { intros E. destruct (IH _ _ E) as (S1 & D & A).
        repeat split; [exact S1 | now apply derives_maybe_skip | exact A]. }
      destruct s as [|c s]; [exact Skip|].
      destruct (cls it c) eqn:Pc; [|exact Skip].
      destruct (run aend rest s) as [h1|] eqn:E; [|exact Skip].
      intros [= <-]. destruct (IH _ _ E) as (-> & D & A). simpl.
      repeat split; [now apply derives_maybe_take | exact A].
    + destruct s as [|c s]; [discriminate|].
      destruct (cls it c) eqn:Pc; [|discriminate].
      destruct (star _ _ _ s) as [h1|] eqn:E; [|discriminate].
      intros [= <-]. apply star_sound in E as (cs & s' & h' & -> & A & K & ->).
      destruct (IH _ _ K) as (-> & D & An). simpl.
      repeat split.
      * now rewrite append_assoc.
      * pose proof (derives_many1 it rest (String c cs) (matched h') (group1 h') Q) as M.
        simpl in M |- *. destruct (grouped it); apply M; try discriminate;
          try (now rewrite Pc, A); exact D.
      * exact An.
Qed.

(** Completeness of [run]: a text derived by the items, followed by
    anything the end anchor allows, is matched (possibly differently). *)
Lemma run_complete aend its m cap rest :
  derives its m cap -> (aend = true -> rest = "") ->
  exists h, run aend its (m ++ rest) = Some h.
Proof.
  intros D E. induction D as
      [ | it its' c m cap Q Pc D IH | it its' c m cap Q Pc D IH
        | it its' m cap Q D IH | it its' cs m cap Q Ne A D IH ]; simpl.
  - unfold finish. destruct aend; [rewrite (E eq_refl)|]; eauto.
  - rewrite Q, Pc. destruct IH as [h ->]. simpl. eauto.
  - rewrite Q, Pc. destruct IH as [h ->]. eauto.
  - rewrite Q. destruct IH as [h IH].
    destruct (m ++ rest) as [|c s] eqn:Em; [eauto|].
    destruct (cls it c); [|eauto].
    destruct (run aend its' s); eauto.
  - rewrite Q. destruct cs as [|c cs]; [congruence|]. simpl in *.
    apply andb_true_iff in A as [Pc A]. rewrite Pc, append_assoc.
    destruct (star_complete (cls it) (grouped it) (run aend its') cs (m ++ rest) A IH)
      as [h ->].
    simpl. eauto.
Qed.

(** Literal items match exactly their text. *)
Lemma run_lits aend l its s :
  run aend (lits l ++ its)%list s =
    match dropPrefix l s with
    | Some s' => option_map (takeAll false l) (run aend its s')
    | None => None
    end.
Proof.
  revert s; induction l as [|a l IH]; intros s; simpl.
  - destruct (run aend its s) as [h|]; simpl; [now rewrite takeAll_nil | reflexivity].
  - destruct s as [|b s]; [reflexivity|].
    destruct (Ascii.eqb_spec a b) as [->|ne]; [|reflexivity].
    rewrite IH. destruct (dropPrefix l s) as [s0|]; [|reflexivity].
    destruct (run aend its s0); simpl; [now rewrite take_takeAll | reflexivity].
Qed.

Lemma derives_once_inv it rest m cap :
  quant it = Once -> derives (it :: rest) m cap ->
  exists c m' cap', m = String c m' /\ cls it c = true /\ derives rest m' cap'
                    /\ cap = (if grouped it then String c cap' else cap').
Proof.
  intros Q D. inversion D; subst; try congruence.
  do 3 eexists. repeat split; eassumption.
Qed.

Lemma derives_many1_inv it rest m cap :
  quant it = Many1 -> derives (it :: rest) m cap ->
  exists cs m' cap', m = cs ++ m' /\ cs <> "" /\ allOf (cls it) cs = true
                     /\ derives rest m' cap'
                     /\ cap = (if grouped it then cs ++ cap' else cap').
Proof.
  intros Q D. inversion D; subst; try congruence.
  do 3 eexists. repeat split; eassumption.
Qed.

Lemma derives_nil_inv m cap : derives [] m cap -> m = "" /\ cap = "".
Proof. intros D. inversion D. auto. Qed.

Lemma derives_lits l its m cap :
  derives (lits l ++ its)%list m cap <->
  exists m', m = l ++ m' /\ derives its m' cap.
Proof.
  revert m; induction l as [|a l IH]; intros m; simpl.
  - split; [eauto | now intros (m' & -> & D)].
  - split.
    + intros D. apply derives_once_inv in D as (c & m1 & cap1 & -> & Pc & D & ->);
        [|reflexivity].
      simpl in *. apply Ascii.eqb_eq in Pc as <-.
      apply IH in D as (m' & -> & D'). eauto.
    + intros (m' & -> & D).
      apply (derives_once (lit a) _ a (l ++ m') cap eq_refl (Ascii.eqb_refl a)).
      apply IH. eauto.
Qed.

(** [scan] finds a hit exactly when [run] has one at some position. *)
Lemma scan_sound aend its s before h :
  scan aend its s = Some (before, h) ->
  exists s', s = before ++ s' /\ run aend its s' = Some h.
Proof.
  revert before; induction s as [|c s IH]; intros before; simpl.
  - destruct (run aend its "") eqn:E; [|discriminate].
    intros [= <- <-]. now exists "".
  - destruct (run aend its (String c s)) eqn:E.
    + intros [= <- <-]. now exists (String c s).
    + destruct (scan aend its s) as [[b1 h1]|]; [|discriminate].
      simpl. intros [= <- <-]. destruct (IH _ eq_refl) as (s' & -> & R).
      now exists s'.
Qed.

Lemma scan_here aend its s h :
  run aend its s = Some h -> scan aend its s = Some ("", h).
Proof. intros R. destruct s; simpl; now rewrite R. Qed.

Lemma scan_complete aend its before s' :
  (exists h, run aend its s' = Some h) ->
  exists r, scan aend its (before ++ s') = Some r.
Proof.
  intros R. induction before as [|c b IH]; simpl.
  - destruct R as [h R]. destruct s'; simpl; rewrite R; eauto.
  - destruct (run aend its (String c (b ++ s'))); [eauto|].
    destruct IH as [r ->]. simpl. eauto.
Qed.

End RegexFacts.

(* ------------------------------------------------------------------ *)
(** ** The identifier codec *)

Module GidFacts.
Import JsString JsStringFacts Regex RegexFacts Gid.

Lemma gidRegex_items : items gidRegex = (lits gidPrefix ++ gidTail)%list.
Proof. reflexivity. Qed.

Lemma derives_gidTail m cap :
  derives gidTail m cap <->
  exists type, m = type ++ "/" ++ cap /\ wordTag type
               /\ cap <> "" /\ allOf isDigit cap = true.
Proof.
  unfold gidTail, wordTag. split.
  - intros D.
    apply derives_many1_inv in D as (t & m1 & c1 & -> & Nt & At & D & ->); [|reflexivity].
    apply derives_once_inv in D as (c & m2 & c2 & -> & Pc & D & ->); [|reflexivity].
    change (Ascii.eqb "/" c = true) in Pc. apply Ascii.eqb_eq in Pc as <-.
    apply derives_many1_inv in D as (d & m3 & c3 & -> & Nd & Ad & D & ->); [|reflexivity].
    apply derives_nil_inv in D as [-> ->].
    cbn [grouped lit]. change (allOf isWord t = true) in At.
    change (allOf isDigit d = true) in Ad. rewrite !append_nil_r.
    exists t. auto.
  - intros (t & -> & [Nt At] & Nd & Ad).
    apply (derives_many1 (Item isWord Many1 false) _ t ("/" ++ cap) cap eq_refl Nt At).
    apply (derives_once (lit "/") _ "/"%char cap cap eq_refl eq_refl).
    pose proof (derives_many1 (Item isDigit Many1 true) [] cap "" "" eq_refl Nd Ad
                  derives_nil) as D.
    simpl in D. now rewrite append_nil_r in D.
Qed.

(** [fromGid] finds a match exactly in the texts that contain the pattern. *)
Lemma strMatch_gid_sound g h :
  strMatch gidRegex g = Some h -> matchesGidPattern g.
Proof.
  unfold strMatch, exec. simpl anchorStart. cbv iota.
  destruct (scan _ _ g) as [[before h1]|] eqn:E; [|discriminate].
  intros _. apply scan_sound in E as (s' & -> & R).
  apply run_sound in R as (-> & D & _).
  rewrite gidRegex_items in D.
  apply derives_lits in D as (m' & Em & D).
  apply derives_gidTail in D as (t & -> & [Nt At] & Nd & Ad).
  exists before, t, (group1 h1), (after h1). rewrite Em.
  rewrite !append_assoc. auto.
Qed.

Lemma strMatch_gid_complete g :
  matchesGidPattern g -> exists h, strMatch gidRegex g = Some h.
Proof.
  intros (before & t & d & rest & -> & Nt & At & Nd & Ad).
  unfold strMatch, exec. simpl anchorStart. cbv iota.
  assert (D : derives (items gidRegex) (gidPrefix ++ t ++ "/" ++ d) d).
  { rewrite gidRegex_items. apply derives_lits. eexists; split; [reflexivity|].
    apply derives_gidTail. exists t. unfold wordTag. auto. }
  destruct (run_complete (anchorEnd gidRegex) _ _ _ rest D) as [h R]; [discriminate|].
  destruct (scan_complete (anchorEnd gidRegex) (items gidRegex) before _ (ex_intro _ h R))
    as [[b h'] S].
  replace (before ++ gidPrefix ++ t ++ "/" ++ d ++ rest)
    with (before ++ (gidPrefix ++ t ++ "/" ++ d) ++ rest).
  - rewrite S. simpl. eauto.
  - now rewrite !append_assoc.
Qed.

Lemma fromGid_no_match g : ~ matchesGidPattern g -> fromGid g = g.
Proof.
  intros N. unfold fromGid. destruct (strMatch gidRegex g) as [h|] eqn:E; [|reflexivity].
  exfalso. apply N. eapply strMatch_gid_sound; eassumption.
Qed.

(** Decoding an identifier [gid://shopify/<type>/<digits>]. *)
Lemma fromGid_encoded type digits :
  wordTag type -> digits <> "" -> allOf isDigit digits = true ->
  fromGid (gidPrefix ++ type ++ "/" ++ digits) = digits.
Proof.
  intros [Nt At] Nd Ad. unfold fromGid, strMatch, exec. simpl anchorStart. cbv iota.
  destruct type as [|c t]; [congruence|]. destruct digits as [|e d]; [congruence|].
  simpl in At, Ad. apply andb_true_iff in At as [Pc At].
  apply andb_true_iff in Ad as [Pe Ad].
  assert (R : run false (items gidRegex) (gidPrefix ++ String c t ++ "/" ++ String e d)
              = Some (takeAll false gidPrefix
                        (take false c (takeAll false t
                           (take false "/"%char
                              (take true e (takeAll true d (Hit "" "" "")))))))).
  { rewrite gidRegex_items, run_lits, dropPrefix_append. unfold gidTail.
    cbn [option_map run quant cls grouped append]. rewrite Pc.
    rewrite (star_greedy isWord false _ t ("/" ++ String e d)
               (take false "/"%char (take true e (takeAll true d (Hit "" "" ""))))
               At eq_refl).
    - reflexivity.
    - cbn [append lit quant cls grouped run]. simpl Ascii.eqb. cbv iota. rewrite Pe.
      rewrite <- (append_nil_r d) at 1.
      rewrite (star_greedy isDigit true (finish false) d "" (Hit "" "" "") Ad eq_refl eq_refl).
      reflexivity. }
  change (anchorEnd gidRegex) with false.
  rewrite (scan_here _ _ _ _ R). simpl. now rewrite append_nil_r.
Qed.

Lemma digits_not_opaque d : allOf isDigit d = true -> startsWith d gidPrefix = false.
Proof.
  intros A. unfold startsWith. destruct (String.prefix gidPrefix d) eqn:E; [|reflexivity].
  apply prefix_spec in E as [r ->]. unfold gidPrefix in A. simpl in A. discriminate.
Qed.

Lemma string_of_uint_digits u : allOf isDigit (NilEmpty.string_of_uint u) = true.
Proof. induction u; simpl; auto. Qed.

Lemma NilZero_string_of_uint_digits u :
  NilZero.string_of_uint u <> "" /\ allOf isDigit (NilZero.string_of_uint u) = true.
Proof.
  pose proof (string_of_uint_digits u) as A.
  destruct u; simpl in *; split; try discriminate; auto.
Qed.

(** A numeric identifier prints as a non-empty string of digits. *)
Lemma numericId_digits id :
  numericId id -> jsString id <> "" /\ allOf isDigit (jsString id) = true.
Proof.
  destruct id as [d|n]; simpl; [auto|]. intros [L _].
  destruct n as [|p|p]; [| |lia]; apply NilZero_string_of_uint_digits.
Qed.

Lemma safeNumericId_numeric id : safeNumericId id -> numericId id.
Proof.
  destruct id as [d|n]; simpl; [auto|]. unfold MAX_SAFE_INTEGER. lia.
Qed.

End GidFacts.

Module Codec.
Import JsString JsStringFacts Gid GidFacts.

(** C4 (as amended). For every type tag made of one or more word
    characters and every short identifier whose stringified form is a
    non-empty string of decimal digits (such a string, or a number that is
    a non-negative safe integer, at most 2^53 - 1), decoding the encoded
    identifier gives back the stringified identifier:
    [fromGid(toGid(t, s)) = String(s)]. *)
Theorem fromGid_toGid_numeric (type : string) (id : Id) :
  wordTag type -> safeNumericId id ->
  fromGid (toGid type id) = jsString id.
Proof.
  intros W Sid. destruct (numericId_digits id (safeNumericId_numeric id Sid)) as [Nd Ad].
  unfold toGid. rewrite (digits_not_opaque _ Ad).
  now apply fromGid_encoded.
Qed.

Lemma fromGid_toGid_numeric_witness :
  wordTag "ProductVariant" /\ safeNumericId (IdNumber 7654321)
  /\ safeNumericId (IdString "0042")
  /\ fromGid (toGid "ProductVariant" (IdNumber 7654321)) = "7654321"
  /\ fromGid (toGid "ProductVariant" (IdString "0042")) = "0042".
Proof.
  assert (W : wordTag "ProductVariant") by (split; [discriminate | reflexivity]).
  assert (Nid : safeNumericId (IdNumber 7654321))
    by (unfold safeNumericId, MAX_SAFE_INTEGER; lia).
  assert (Sid : safeNumericId (IdString "0042")) by (split; [discriminate | reflexivity]).
  exact (conj W (conj Nid (conj Sid
           (conj (fromGid_toGid_numeric "ProductVariant" (IdNumber 7654321) W Nid)
                 (fromGid_toGid_numeric "ProductVariant" (IdString "0042") W Sid))))).
Defined.

(** C4 as stated fails, on the identifier and on the type tag. The short
    identifier ["abc"] does not begin with the opaque prefix, its encoding is
    [gid://shopify/Product/abc], the pattern of [fromGid] has no digits to
    capture there, and the whole encoding comes back instead of ["abc"]. And
    with the numeric identifier ["12"] under the type tag [Product-Variant],
    which is not made of word characters, the pattern does not match either
    and the whole encoding comes back instead of ["12"]. *)
Lemma fromGid_toGid_text_id :
  (startsWith (jsString (IdString "abc")) gidPrefix = false
   /\ fromGid (toGid "Product" (IdString "abc")) = "gid://shopify/Product/abc"
   /\ fromGid (toGid "Product" (IdString "abc")) <> jsString (IdString "abc"))
  /\ (startsWith (jsString (IdString "12")) gidPrefix = false
      /\ fromGid (toGid "Product-Variant" (IdString "12"))
         = "gid://shopify/Product-Variant/12"
      /\ fromGid (toGid "Product-Variant" (IdString "12")) <> jsString (IdString "12")).
Proof.
  split; (split; [reflexivity|]); (split; [reflexivity|]); vm_compute; discriminate.
Qed.

(** C7. The codec is the identity on what it cannot translate, and it is
    total in both directions: [toGid] returns a string that already begins
    with the opaque prefix as it is, whatever the type tag, and [fromGid]
    returns a string that does not contain the pattern
    [gid://shopify/\w+/(\d+)] as it is. *)
Theorem codec_identity_on_untranslatable (type g : string) :
  ((exists rest, g = gidPrefix ++ rest) -> toGid type (IdString g) = g)
  /\ (~ matchesGidPattern g -> fromGid g = g).
Proof.
  split.
  - intros P. apply prefix_spec in P. unfold toGid, startsWith. simpl jsString.
    now rewrite P.
  - apply fromGid_no_match.
Qed.

Lemma codec_identity_on_untranslatable_witness :
  (exists rest, "gid://shopify/Product/abc" = gidPrefix ++ rest)
  /\ ~ matchesGidPattern "gid://shopify/Product/abc"
  /\ toGid "Order" (IdString "gid://shopify/Product/abc") = "gid://shopify/Product/abc"
  /\ fromGid "gid://shopify/Product/abc" = "gid://shopify/Product/abc".
Proof.
  assert (P : exists rest, "gid://shopify/Product/abc" = gidPrefix ++ rest)
    by (exists "Product/abc"; reflexivity).
  assert (M : ~ matchesGidPattern "gid://shopify/Product/abc").
  { intros M. apply strMatch_gid_complete in M as [h M]. vm_compute in M. discriminate. }
  destruct (codec_identity_on_untranslatable "Order" "gid://shopify/Product/abc") as [A B].
  exact (conj P (conj M (conj (A P) (B M)))).
Defined.

End Codec.

(* ------------------------------------------------------------------ *)
(** ** The error classifier *)

Module Classifier.
Import JsString JsStringFacts Errors.

Lemma includes_contains s p : includes s p = true <-> contains s p.
Proof. apply includes_spec. Qed.

Lemma includes_not_contains s p : includes s p = false <-> ~ contains s p.
Proof.
  rewrite <- includes_contains. destruct (includes s p); split; congruence.
Qed.

(** C5. The classifier goes by substrings of the message of the thrown
    [Error], in this order: "Throttled" gives the rate-limit kind; else
    "401" or "Unauthorized" gives the authentication kind; else "404" or
    "not found" gives the not-found kind (keeping the message); every
    other message gives the generic API error (keeping the message). *)
Theorem handleError_classification (e : ErrorObject) :
  let m := errMessage e in
  (contains m "Throttled" ->
     handleError (ThrownError e)
     = newShopifyRateLimitError "Rate limit exceeded. Please retry after a moment.")
  /\ (~ contains m "Throttled" ->
      contains m "401" \/ contains m "Unauthorized" ->
      handleError (ThrownError e)
      = newShopifyAuthenticationError "Invalid access token or authentication failed.")
  /\ (~ contains m "Throttled" ->
      ~ contains m "401" -> ~ contains m "Unauthorized" ->
      contains m "404" \/ contains m "not found" ->
      handleError (ThrownError e) = newShopifyNotFoundError m)
  /\ (~ contains m "Throttled" ->
      ~ contains m "401" -> ~ contains m "Unauthorized" ->
      ~ contains m "404" -> ~ contains m "not found" ->
      handleError (ThrownError e) = newShopifyAPIError m).
Proof.
  intros m. unfold handleError. fold m.
  repeat split.
  - intros T. apply includes_contains in T. now rewrite T.
  - intros T A. apply includes_not_contains in T. rewrite T.
    destruct A as [A|A]; apply includes_contains in A; rewrite A;
      [reflexivity | now rewrite orb_true_r].
  - intros T A U F. apply includes_not_contains in T, A, U. rewrite T, A, U.
    destruct F as [F|F]; apply includes_contains in F; rewrite F;
      [reflexivity | now rewrite orb_true_r].
  - intros T A U F N. apply includes_not_contains in T, A, U, F, N.
    now rewrite T, A, U, F, N.
Qed.

Ltac absent := let C := fresh in intros C; apply includes_contains in C; discriminate C.
Ltac present := apply includes_contains; reflexivity.

Lemma handleError_classification_witness :
  errClass (handleError (ThrownError (newError "Throttled after 404")))
    = ShopifyRateLimitError
  /\ errClass (handleError (ThrownError (newError "HTTP 401: resource not found")))
    = ShopifyAuthenticationError
  /\ handleError (ThrownError (newError "Product not found"))
    = newShopifyNotFoundError "Product not found"
  /\ handleError (ThrownError (newError "socket hang up"))
    = newShopifyAPIError "socket hang up".
Proof.
  split; [|split; [|split]].
  - destruct (handleError_classification (newError "Throttled after 404")) as (H & _).
    rewrite H; [reflexivity | present].
  - destruct (handleError_classification (newError "HTTP 401: resource not found"))
      as (_ & H & _).
    rewrite H; [reflexivity | absent | left; present].
  - destruct (handleError_classification (newError "Product not found"))
      as (_ & _ & H & _).
    apply H; [absent | absent | absent | right; present].
  - destruct (handleError_classification (newError "socket hang up"))
      as (_ & _ & _ & H).
    apply H; absent.
Defined.

End Classifier.

(* ------------------------------------------------------------------ *)
(** ** The endpoint *)

Module Endpoint.
Import Types JsString JsStringFacts Regex RegexFacts ClientSetup.

Lemma dropPrefix_app a b s :
  dropPrefix (a ++ b) s =
    match dropPrefix a s with
    | Some s' => dropPrefix b s'
    | None => None
    end.
Proof.
  revert s; induction a as [|x a IH]; intros s; simpl; [reflexivity|].
  destruct s as [|y s]; [reflexivity|]. destruct (Ascii.eqb x y); [apply IH | reflexivity].
Qed.

Lemma run_only_lits aend l s :
  run aend (lits l) s =
    match dropPrefix l s with
    | Some s' => option_map (takeAll false l) (finish aend s')
    | None => None
    end.
Proof. rewrite <- (app_nil_r (lits l)). apply run_lits. Qed.

(** The first [replace]: the expression [/^https?:\/\//] removes a leading
    [https://] or [http://] and nothing else. *)
Lemma replace_scheme url : replaceEmpty schemeRegex url = stripScheme_spec url.
Proof.
  unfold replaceEmpty, exec, stripScheme_spec. simpl anchorStart. cbv iota.
  change (items schemeRegex)
    with (lits "http" ++ (Item (Ascii.eqb "s") Maybe false :: lits "://"))%list.
  change (anchorEnd schemeRegex) with false.
  rewrite run_lits.
  change "https://" with ("http" ++ "s://"). change "http://" with ("http" ++ "://").
  rewrite !dropPrefix_app.
  destruct (dropPrefix "http" url) as [s1|]; [|reflexivity].
  cbn [run quant cls grouped].
  destruct s1 as [|c s2]; rewrite ?run_only_lits; unfold finish.
  - reflexivity.
  - destruct (Ascii.eqb_spec "s" c) as [<-|ne].
    + change (dropPrefix "s://" (String "s" s2)) with (dropPrefix "://" s2).
      destruct (dropPrefix "://" s2) as [r|]; reflexivity.
    + replace (dropPrefix "s://" (String c s2)) with (@None string).
      * destruct (dropPrefix "://" (String c s2)); reflexivity.
      * change (dropPrefix "s://" (String c s2))
          with (if Ascii.eqb "s" c then dropPrefix "://" s2 else None).
        apply Ascii.eqb_neq in ne. now rewrite ne.
Qed.

(** The second [replace]: the expression [/\/$/] removes one slash at the
    very end. *)
Lemma replace_trailing_slash s :
  replaceEmpty trailingSlashRegex s = stripTrailingSlash_spec s.
Proof.
  unfold replaceEmpty, exec. simpl anchorStart. cbv iota.
  change (items trailingSlashRegex) with [lit "/"].
  change (anchorEnd trailingSlashRegex) with true.
  induction s as [|c s IH]; [reflexivity|].
  unfold scan; fold scan. cbn [run lit quant cls grouped finish].
  destruct s as [|d s].
  - destruct (Ascii.eqb_spec "/" c) as [<-|ne].
    + reflexivity.
    + cbn [stripTrailingSlash_spec].
      destruct (Ascii.eqb_spec c "/"); [congruence | reflexivity].
  - assert (R : (if Ascii.eqb "/" c
                 then option_map (take false c) (@None hit) else None) = None)
      by (destruct (Ascii.eqb "/" c); reflexivity).
    cbn [option_map] in R |- *. rewrite R.
    change (stripTrailingSlash_spec (String c (String d s)))
      with (String c (stripTrailingSlash_spec (String d s))).
    rewrite <- IH.
    destruct (scan true [lit "/"] (String d s)) as [[b h]|]; reflexivity.
Qed.

Lemma normalizedStoreUrl_spec url :
  normalizedStoreUrl url = stripTrailingSlash_spec (stripScheme_spec url).
Proof. unfold normalizedStoreUrl. now rewrite replace_scheme, replace_trailing_slash. Qed.

(** What the two specification-side functions do, said on the text. *)
Lemma stripScheme_spec_https r : stripScheme_spec ("https://" ++ r) = r.
Proof. unfold stripScheme_spec. now rewrite dropPrefix_append. Qed.

Lemma stripScheme_spec_http r : stripScheme_spec ("http://" ++ r) = r.
Proof.
  unfold stripScheme_spec. rewrite (dropPrefix_append "http://" r).
  destruct (dropPrefix "https://" ("http://" ++ r)) as [x|] eqn:E; [|reflexivity].
  apply dropPrefix_spec in E. discriminate E.
Qed.

Lemma stripScheme_spec_other url :
  (forall r, url <> "https://" ++ r) -> (forall r, url <> "http://" ++ r) ->
  stripScheme_spec url = url.
Proof.
  intros A B. unfold stripScheme_spec.
  destruct (dropPrefix "https://" url) as [x|] eqn:E.
  - apply dropPrefix_spec in E. now destruct (A x).
  - destruct (dropPrefix "http://" url) as [y|] eqn:F; [|reflexivity].
    apply dropPrefix_spec in F. now destruct (B y).
Qed.

Lemma stripTrailingSlash_spec_slash r : stripTrailingSlash_spec (r ++ "/") = r.
Proof.
  induction r as [|c r IH]; [reflexivity|].
  change (String c r ++ "/") with (String c (r ++ "/")).
  destruct (r ++ "/") as [|d x] eqn:E.
  - destruct r; discriminate.
  - change (stripTrailingSlash_spec (String c (String d x)))
      with (String c (stripTrailingSlash_spec (String d x))).
    now rewrite IH.
Qed.

Lemma stripTrailingSlash_spec_other s :
  (forall r, s <> r ++ "/") -> stripTrailingSlash_spec s = s.
Proof.
  induction s as [|c s IH]; [reflexivity|]. intros N.
  destruct s as [|d x].
  - cbn [stripTrailingSlash_spec].
    destruct (Ascii.eqb_spec c "/") as [->|]; [now destruct (N "") | reflexivity].
  - change (stripTrailingSlash_spec (String c (String d x)))
      with (String c (stripTrailingSlash_spec (String d x))).
    rewrite IH; [reflexivity|]. intros r E. apply (N (String c r)). simpl. now rewrite E.
Qed.

(** C9. With [storeUrl = "shop.myshopify.com"], [accessToken = "tok"], no
    [apiVersion] in the configuration and none in the environment, the
    client is constructed and its endpoint is
    [https://shop.myshopify.com/admin/api/2025-01/graphql.json]. In general
    the endpoint of a constructed client is [https://], the configured
    store URL without a leading [http://] or [https://] and without a
    trailing slash, [/admin/api/], the API version and [/graphql.json]. *)
Theorem endpoint_of_client :
  (forall env, SHOPIFY_API_VERSION env = None ->
     exists c,
       construct (Partial (Some "shop.myshopify.com") (Some "tok") None) env = Returned c
       /\ endpoint c = "https://shop.myshopify.com/admin/api/2025-01/graphql.json")
  /\ (forall cfg env c, construct cfg env = Returned c ->
        endpoint c = endpoint_spec (storeUrl (config c)) (apiVersion (config c))).
Proof.
  split.
  - intros [su tok ver] E. simpl in E. subst ver. eexists. split; reflexivity.
  - intros cfg env c. unfold construct.
    destruct (validateConfig (resolveConfig cfg env)); [discriminate|].
    intros [= <-]. simpl. unfold buildEndpoint, endpoint_spec.
    now rewrite normalizedStoreUrl_spec.
Qed.

Lemma endpoint_of_client_witness :
  (exists c,
      construct (Partial (Some "shop.myshopify.com") (Some "tok") None)
                (MkEnv None None None) = Returned c
      /\ endpoint c = "https://shop.myshopify.com/admin/api/2025-01/graphql.json")
  /\ (exists c,
      construct (Partial (Some "http://shop.myshopify.com/") (Some "tok") (Some "2024-10"))
                (MkEnv None None None) = Returned c
      /\ endpoint c = "https://shop.myshopify.com/admin/api/2024-10/graphql.json").
Proof.
  destruct endpoint_of_client as [A B]. split.
  - exact (A (MkEnv None None None) eq_refl).
  - eexists. split; [reflexivity|].
    exact (B (Partial (Some "http://shop.myshopify.com/") (Some "tok") (Some "2024-10"))
             (MkEnv None None None) _ eq_refl).
Defined.

End Endpoint.

(* ------------------------------------------------------------------ *)
(** ** The mutation normaliser *)

Module MutationFacts.
Import Types Mutation.

Section Normalisation.
Variable request : string -> Variables -> Outcome Response.
Variables (mutation : string) (variables : Variables).

(** C1. Whatever response object the transport returns, [mutate] returns
    an envelope and does not throw. The result key is the name supplied
    (a name that is the empty string counts as not supplied, as [||]
    has it), or else the first top-level key of the response. When the
    [userErrors] array under that key is not empty the envelope is
    [{ success: false, data: null, userErrors }] with that array; when it
    is empty, and in every other case where there is no non-empty
    [userErrors] array under that key, the envelope is
    [{ success: true, data: response, userErrors: [] }]. *)
Theorem mutate_normalizes (mutationName : option string) (response : Response) :
  request mutation variables = Returned response ->
  let key := propertyKey (resultKey mutationName response) in
  let out := mutate request mutation variables mutationName in
  (forall n, mutationName = Some n -> n <> "" -> key = n)
  /\ (mutationName = None \/ mutationName = Some "" ->
      forall k v rest, response = (k, v) :: rest -> key = k)
  /\ (forall ues others,
         getProp response key = Some (RObject (Some ues) others) -> ues <> [] ->
         out = Returned {| success := false; data := None; userErrors := ues |})
  /\ (forall others,
         getProp response key = Some (RObject (Some []) others) ->
         out = Returned {| success := true; data := Some response; userErrors := [] |})
  /\ ((forall ues others,
          getProp response key = Some (RObject (Some ues) others) -> ues = []) ->
      out = Returned {| success := true; data := Some response; userErrors := [] |})
  /\ (exists r, out = Returned r
                /\ (success r = true /\ data r = Some response /\ userErrors r = []
                    \/ success r = false /\ data r = None /\ userErrors r <> [])).
Proof.
  intros R key out. subst key out. unfold mutate. rewrite R.
  split; [|split; [|split; [|split; [|split]]]].
  - intros n -> Nn. destruct n; [congruence | reflexivity].
  - intros [-> | ->] k v rest ->; reflexivity.
  - intros ues others G Ne. rewrite G. simpl.
    destruct ues; [congruence | reflexivity].
  - intros others G. rewrite G. reflexivity.
  - intros E.
    destruct (getProp response (propertyKey (resultKey mutationName response)))
      as [[|[ues|] others]|]; try reflexivity.
    rewrite (E ues others eq_refl). reflexivity.
  - destruct (userErrorsOf _) as [[|e es]|]; eexists; split; try reflexivity;
      try (left; repeat split; reflexivity).
    right. split; [reflexivity|]. split; [reflexivity | discriminate].
Qed.

(** C10. When the selected key is absent from the response (as it is in
    an empty response), when its value is [null], or when the object
    under it has no [userErrors], [mutate] does not throw and returns
    [{ success: true, data: response, userErrors: [] }]. *)
Theorem mutate_without_userErrors (mutationName : option string) (response : Response) :
  request mutation variables = Returned response ->
  let key := propertyKey (resultKey mutationName response) in
  let out := mutate request mutation variables mutationName in
  (response = [] -> out = Returned {| success := true; data := Some response; userErrors := [] |})
  /\ (getProp response key = None -> out = Returned {| success := true; data := Some response; userErrors := [] |})
  /\ (getProp response key = Some RNull -> out = Returned {| success := true; data := Some response; userErrors := [] |})
  /\ (forall others, getProp response key = Some (RObject None others) ->
      out = Returned {| success := true; data := Some response; userErrors := [] |}).
Proof.
  intros R key out. subst key out. unfold mutate. rewrite R.
  repeat split.
  - intros ->. reflexivity.
  - intros ->. reflexivity.
  - intros ->. reflexivity.
  - intros others ->. reflexivity.
Qed.
End Normalisation.

Lemma mutate_normalizes_witness :
  mutate (fun _ _ => Returned rejected) "mutation" [] None
    = Returned {| success := false; data := None; userErrors := [titleBlank] |}
  /\ mutate (fun _ _ => Returned created) "mutation" [] (Some "productCreate")
    = Returned {| success := true; data := Some created; userErrors := [] |}.
Proof.
  split.
  - destruct (mutate_normalizes (fun _ _ => Returned rejected) "mutation" [] None
                rejected eq_refl) as (_ & _ & F & _).
    apply (F [titleBlank] [("product", JNull)] eq_refl). discriminate.
  - destruct (mutate_normalizes (fun _ _ => Returned created) "mutation" []
                (Some "productCreate") created eq_refl) as (_ & _ & _ & A & _).
    exact (A _ eq_refl).
Defined.

Lemma mutate_without_userErrors_witness :
  mutate (fun _ _ => Returned []) "mutation" [] None = Returned {| success := true; data := Some []; userErrors := [] |}
  /\ mutate (fun _ _ => Returned noErrorsField) "mutation" [] (Some "productCreate")
     = Returned {| success := true; data := Some noErrorsField; userErrors := [] |}
  /\ mutate (fun _ _ => Returned noErrorsField) "mutation" [] (Some "node")
     = Returned {| success := true; data := Some noErrorsField; userErrors := [] |}
  /\ mutate (fun _ _ => Returned noErrorsField) "mutation" [] None
     = Returned {| success := true; data := Some noErrorsField; userErrors := [] |}.
Proof.
  split; [|split; [|split]].
  - destruct (mutate_without_userErrors (fun _ _ => Returned []) "mutation" [] None
                [] eq_refl) as (E & _).
    exact (E eq_refl).
  - destruct (mutate_without_userErrors (fun _ _ => Returned noErrorsField) "mutation" []
                (Some "productCreate") noErrorsField eq_refl) as (_ & A & _).
    exact (A eq_refl).
  - destruct (mutate_without_userErrors (fun _ _ => Returned noErrorsField) "mutation" []
                (Some "node") noErrorsField eq_refl) as (_ & _ & N & _).
    exact (N eq_refl).
  - destruct (mutate_without_userErrors (fun _ _ => Returned noErrorsField) "mutation" []
                None noErrorsField eq_refl) as (_ & _ & _ & O).
    exact (O _ eq_refl).
Defined.

End MutationFacts.

(* ------------------------------------------------------------------ *)
(** ** The pagination loop *)

Module PagingFacts.
Import Paging.

Section Loop.
Context {S T N : Type}.
Variable request : S -> string -> Variables -> S * Outcome T.
Variable extractNodes : T -> Page N.
Variables (q : string) (variables : Variables).

Abbreviation loop := (queryAllLoop request extractNodes).

(** More fuel does not change the result of a loop that has exited. *)
Lemma loop_more_fuel fuel : forall k st acc hasNext cursor r,
  loop fuel q variables st acc hasNext cursor = Some r ->
  loop (fuel + k) q variables st acc hasNext cursor = Some r.
Proof.
  induction fuel as [|fuel IH]; intros k st acc hasNext cursor r; simpl; [discriminate|].
  destruct hasNext; [|auto].
  destruct (query request st q _) as [st' [response|e]]; [|auto].
  destruct (_ <? _)%Z; [auto | apply IH].
Qed.




End Loop.

End PagingFacts.

Module Accumulator.
Import Paging PagingFacts.





(** The safety limit counts items, not requests: on a source that serves
    the same page without items and with [hasNextPage: true] for ever, the
    loop has not exited after any number of tests of its condition. *)
Lemma loop_emptyAnomaly fuel : forall cursor,
  queryAllLoop (constRequest emptyAnomaly) self fuel "q" [] tt [] true cursor = None.
Proof. induction fuel as [|fuel IH]; intros cursor; [reflexivity | apply IH]. Qed.

End Accumulator.

(* ------------------------------------------------------------------ *)
(** ** Three pages *)

Module ThreePages.
Import Paging.

Lemma two_items {A : Type} (l : list A) :
  List.length l = 2 -> exists a b, l = [a; b].
Proof. destruct l as [|a [|b [|c l]]]; try discriminate. eauto. Qed.

Lemma one_item {A : Type} (l : list A) :
  List.length l = 1 -> exists a, l = [a].
Proof. destruct l as [|a [|b l]]; try discriminate. eauto. Qed.

(** C8 (as amended). Three pages of 2, 2 and 1 items that report
    [hasNextPage] true, true and false. [queryAll], fed the pages in that
    order, makes three requests, uses up the three pages, writes no warning
    and returns the five items concatenated in the order of the pages, not
    sorted again. What it returns is the bare array of the items: it has
    the five items and no [pageInfo]. *)
Theorem three_pages_accumulated {N : Type} (p1 p2 p3 : Page N)
        (q : string) (variables : Variables) :
  List.length (nodes p1) = 2 -> List.length (nodes p2) = 2 ->
  List.length (nodes p3) = 1 ->
  hasNextPage (pageInfo p1) = true -> hasNextPage (pageInfo p2) = true ->
  hasNextPage (pageInfo p3) = false ->
  let all := (nodes p1 ++ nodes p2 ++ nodes p3)%list in
  List.length all = 5
  /\ (forall fuel, 4 <= fuel ->
        queryAll mockRequest self fuel q variables [p1; p2; p3]
        = Some (MkRun [] [] (Returned all)))
  /\ queryAll mockRequest self 3 q variables [p1; p2; p3] = None
  /\ arrayKeys all = ["0"; "1"; "2"; "3"; "4"; "length"]
  /\ ~ In "pageInfo" (arrayKeys all).
Proof.
  intros L1 L2 L3 H1 H2 H3 all. subst all.
  destruct p1 as [i1 [n1 e1]], p2 as [i2 [n2 e2]], p3 as [i3 [n3 e3]].
  simpl in *. subst n1 n2 n3.
  apply two_items in L1 as (a & b & ->). apply two_items in L2 as (c & d & ->).
  apply one_item in L3 as (e & ->).
  split; [reflexivity|]. split; [|split; [reflexivity|split; [reflexivity|]]].
  - intros fuel Ge.
    replace fuel with (4 + (fuel - 4)) by lia.
    apply (PagingFacts.loop_more_fuel mockRequest self q variables 4).
    reflexivity.
  - change (arrayKeys ([a; b] ++ [c; d] ++ [e])%list)
      with ["0"; "1"; "2"; "3"; "4"; "length"].
    intros [H|[H|[H|[H|[H|[H|[]]]]]]]; discriminate H.
Qed.

Lemma three_pages_accumulated_witness :
  queryAll mockRequest self 4 "q" [] threePages
  = Some (MkRun [] [] (Returned [30; 10; 20; 50; 40]))
  /\ ~ In "pageInfo" (arrayKeys [30; 10; 20; 50; 40]).
Proof.
  destruct (three_pages_accumulated
              (MkPage [30; 10] (MkPageCursor true (Some "a")))
              (MkPage [20; 50] (MkPageCursor true (Some "b")))
              (MkPage [40] (MkPageCursor false None)) "q" []
              eq_refl eq_refl eq_refl eq_refl eq_refl eq_refl) as (_ & Q & _ & _ & P).
  exact (conj (Q 4 (le_n 4)) P).
Defined.

(** C8 as stated fails in its second half. On the three mocked pages
    [queryAll] returns the array [[30, 10, 20, 50, 40]] and nothing else:
    the page information of the last page is read by the loop and dropped,
    and the array returned has the property names [0] to [4] and [length],
    so there is no [pageInfo] on it whose [hasNextPage] could be false. *)
Lemma queryAll_result_has_no_pageInfo :
  queryAll mockRequest self 4 "q" [] threePages
  = Some (MkRun [] [] (Returned [30; 10; 20; 50; 40]))
  /\ arrayKeys [30; 10; 20; 50; 40] = ["0"; "1"; "2"; "3"; "4"; "length"]
  /\ ~ In "pageInfo" (arrayKeys [30; 10; 20; 50; 40]).
Proof.
  split; [reflexivity|]. split; [reflexivity|].
  change (arrayKeys [30; 10; 20; 50; 40]) with ["0"; "1"; "2"; "3"; "4"; "length"].
  intros [H|[H|[H|[H|[H|[H|[]]]]]]]; discriminate H.
Qed.

End ThreePages.

(* ------------------------------------------------------------------ *)
(** ** The error converter of the handlers *)

Module ToolErrors.
Import JsString Errors ErrorHandler.

Lemma truthy_nonempty s : truthy s = true -> s <> "".
Proof. destruct s; [discriminate | discriminate]. Qed.

(** C6. The code of the envelope at a not-found error. A transport error
    whose message mentions 404 leaves the client as a
    [ShopifyNotFoundError]. [handleToolError] returns for it the failure
    envelope with the message kept and no details, and so does a handler
    wrapped by [withErrorHandling] that throws it; but the code of that
    envelope is [NOTFOUND], which is not one of the five handler-local
    kinds and not a value of [ErrorCodes] either, where the kind is spelt
    [NOT_FOUND]. The codes computed for the three other classes of the
    client, [RATELIMIT], [AUTHENTICATION] and [API], are in neither list
    as well. *)
Theorem handleToolError_not_found_code :
  let thrown := ThrownError (handleError (ThrownError (newError "HTTP 404"))) in
  let envelope : ToolResult unit :=
    {| success := false; data := None;
       error := Some {| code := "NOTFOUND"; message := "HTTP 404"; details := None |} |} in
  thrown = ThrownError (newShopifyNotFoundError "HTTP 404")
  /\ handleToolError thrown = envelope
  /\ withErrorHandling (fun _ : unit => Threw thrown) tt = Returned envelope
  /\ ~ In "NOTFOUND" handlerKinds
  /\ ~ In "NOTFOUND" ErrorCodes
  /\ In "NOT_FOUND" handlerKinds
  /\ In "NOT_FOUND" ErrorCodes
  /\ map (fun m => option_map code
                     (error (@handleToolError unit
                               (ThrownError (handleError (ThrownError (newError m)))))))
         ["Throttled"; "HTTP 401"; "HTTP 404"; "boom"]
     = [Some "RATELIMIT"; Some "AUTHENTICATION"; Some "NOTFOUND"; Some "API"]
  /\ Forall (fun c => existsb (String.eqb c) handlerKinds = false
                      /\ existsb (String.eqb c) ErrorCodes = false)
            ["RATELIMIT"; "AUTHENTICATION"; "NOTFOUND"; "API"].
Proof.
  cbv zeta.
  split; [reflexivity|]. split; [reflexivity|]. split; [reflexivity|].
  split; [intros [H|[H|[H|[H|[H|[]]]]]]; discriminate H|].
  split; [intros [H|[H|[H|[H|[H|[H|[H|[]]]]]]]]; discriminate H|].
  split; [left; reflexivity|]. split; [left; reflexivity|].
  split; [reflexivity|].
  repeat constructor.
Qed.

(** X30. Whatever is thrown, [Error] or not, [handleToolError] returns (it
    does not throw) a failure envelope
    [{ success: false, error: { code, message, details? } }] whose code is
    not empty. The envelope is, case by case: [VALIDATION_ERROR] with the
    user errors as details for a [ShopifyValidationError]; for the other
    [ShopifyAPIError] objects the code computed from the [name] of the
    error when that is not empty and [API_ERROR] when it is, with the
    message of the error and no details; [UNKNOWN_ERROR] with the message of
    the error for any other [Error]; and [UNKNOWN_ERROR] with a fixed
    message for a value that is not an [Error]. A handler wrapped by
    [withErrorHandling] therefore always returns: its own result, or the
    failure envelope of what it threw. *)
Theorem handleToolError_always_envelope {T A : Type} :
  (forall thrown : Thrown, exists c m d,
      @handleToolError T thrown
      = {| success := false; data := None;
           error := Some {| code := c; message := m; details := d |} |}
      /\ c <> "")
  /\ (forall e, isShopifyValidationError (errClass e) = true ->
        exists m,
          @handleToolError T (ThrownError e)
          = {| success := false; data := None;
               error := Some {| code := "VALIDATION_ERROR"; message := m;
                                details := Some (DetailsUserErrors (errUserErrors e)) |} |})
  /\ (forall e, isShopifyValidationError (errClass e) = false ->
                isShopifyAPIError (errClass e) = true ->
        @handleToolError T (ThrownError e)
        = {| success := false; data := None;
             error := Some {| code := if truthy (codeOfName (errName e))
                                      then codeOfName (errName e) else "API_ERROR";
                              message := errMessage e; details := None |} |})
  /\ (forall e, isShopifyAPIError (errClass e) = false ->
        @handleToolError T (ThrownError e)
        = {| success := false; data := None;
             error := Some {| code := "UNKNOWN_ERROR"; message := errMessage e;
                              details := None |} |})
  /\ (forall x,
        @handleToolError T (ThrownOther x)
        = {| success := false; data := None;
             error := Some {| code := "UNKNOWN_ERROR";
                              message := "An unexpected error occurred";
                              details := None |} |})
  /\ (forall (handler : A -> Outcome (ToolResult T)) (args : A),
        exists r, withErrorHandling handler args = Returned r
                  /\ (forall r0, handler args = Returned r0 -> r = r0)
                  /\ (forall e, handler args = Threw e ->
                        r = handleToolError e /\ success r = false)).
Proof.
  split; [|split; [|split; [|split; [|split]]]].
  - intros [e|x]; unfold handleToolError.
    + destruct (isShopifyValidationError (errClass e));
        [|destruct (isShopifyAPIError (errClass e));
          [destruct (truthy (codeOfName (errName e))) eqn:Tr|]];
        do 3 eexists; (split; [reflexivity|]); try discriminate.
      now apply truthy_nonempty.
    + do 3 eexists. split; [reflexivity | discriminate].
  - intros e V. unfold handleToolError. rewrite V. eexists. reflexivity.
  - intros e V P. unfold handleToolError. now rewrite V, P.
  - intros e P. unfold handleToolError. rewrite P.
    destruct (errClass e); (discriminate P || reflexivity).
  - reflexivity.
  - intros handler args. unfold withErrorHandling.
    destruct (handler args) as [r|e]; eexists; (split; [reflexivity|]);
      split; try congruence.
    intros e0 [= <-]. split; [reflexivity|].
    destruct e as [e|x]; unfold handleToolError;
      [destruct (isShopifyValidationError (errClass e));
       [|destruct (isShopifyAPIError (errClass e))]|]; reflexivity.
Qed.

Lemma handleToolError_always_envelope_witness :
  (exists m,
    @handleToolError unit
      (ThrownError (newShopifyValidationError "rejected" [Mutation.titleBlank]))
    = {| success := false; data := None;
         error := Some {| code := "VALIDATION_ERROR"; message := m;
                          details := Some (DetailsUserErrors [Mutation.titleBlank]) |} |})
  /\ @handleToolError unit (ThrownError (newError "boom"))
     = {| success := false; data := None;
          error := Some {| code := "UNKNOWN_ERROR"; message := "boom";
                           details := None |} |}
  /\ (exists r, withErrorHandling
                  (fun _ : unit => Threw (ThrownError (newError "boom"))) tt
                = Returned r
                /\ r = @handleToolError unit (ThrownError (newError "boom"))).
Proof.
  destruct (@handleToolError_always_envelope unit unit) as (_ & V & _ & U & _ & W).
  split; [|split].
  - exact (V (newShopifyValidationError "rejected" [Mutation.titleBlank]) eq_refl).
  - exact (U (newError "boom") eq_refl).
  - destruct (W (fun _ : unit => Threw (ThrownError (newError "boom"))) tt)
      as (r & E & _ & X).
    exists r. split; [exact E | exact (proj1 (X _ eq_refl))].
Defined.

End ToolErrors.

(* ================================================================== *)
(** * Further properties of the gateway and of its callers *)

(* ------------------------------------------------------------------ *)
(** ** More on the identifier codec *)

Module CodecMore.
Import JsString JsStringFacts Regex RegexFacts Gid GidFacts.

Lemma toGid_opaque type id : startsWith (toGid type id) gidPrefix = true.
Proof.
  unfold toGid. destruct (startsWith (jsString id) gidPrefix) eqn:E; [exact E|].
  unfold startsWith. apply prefix_spec. eauto.
Qed.

Lemma toGid_again type type' id : toGid type' (IdString (toGid type id)) = toGid type id.
Proof. unfold toGid at 1. simpl jsString. now rewrite toGid_opaque. Qed.

(** X1. Whatever [toGid] returns begins with [gid://shopify/], so encoding
    is idempotent: encoding an encoded identifier again, under any type tag,
    changes nothing. *)
Theorem toGid_idempotent (type type' : string) (id : Id) :
  (exists rest, toGid type id = gidPrefix ++ rest)
  /\ toGid type' (IdString (toGid type id)) = toGid type id.
Proof.
  split.
  - apply prefix_spec. apply toGid_opaque.
  - apply toGid_again.
Qed.

(** The capture of a match of [fromGid] is a non-empty run of digits. *)
Lemma strMatch_gid_group g h :
  strMatch gidRegex g = Some h ->
  group1 h <> "" /\ allOf isDigit (group1 h) = true.
Proof.
  unfold strMatch, exec. simpl anchorStart. cbv iota.
  destruct (scan _ _ g) as [[before h1]|] eqn:E; [|discriminate].
  simpl. intros [= <-]. apply scan_sound in E as (s' & -> & R).
  apply run_sound in R as (_ & D & _).
  rewrite gidRegex_items in D.
  apply derives_lits in D as (m' & _ & D).
  apply derives_gidTail in D as (t & _ & _ & Nd & Ad). auto.
Qed.

Lemma digits_no_pattern d : allOf isDigit d = true -> ~ matchesGidPattern d.
Proof.
  intros A (before & t & ds & rest & -> & _).
  rewrite allOf_append in A. apply andb_true_iff in A as [_ A].
  unfold gidPrefix in A. simpl in A. discriminate.
Qed.

(** X2. When the text contains the pattern, what [fromGid] returns is a
    non-empty string of decimal digits. *)
Theorem fromGid_gives_digits (g : string) :
  matchesGidPattern g ->
  fromGid g <> "" /\ allOf isDigit (fromGid g) = true.
Proof.
  intros M. apply strMatch_gid_complete in M as [h M].
  unfold fromGid. rewrite M. eapply strMatch_gid_group; eassumption.
Qed.

Lemma orderPattern : matchesGidPattern "see gid://shopify/Order/4501 and more".
Proof.
  exists "see ", "Order", "4501", " and more".
  repeat split; try discriminate.
Qed.

Lemma fromGid_gives_digits_witness :
  fromGid "see gid://shopify/Order/4501 and more" <> ""
  /\ allOf isDigit (fromGid "see gid://shopify/Order/4501 and more") = true.
Proof.
  exact (fromGid_gives_digits "see gid://shopify/Order/4501 and more" orderPattern).
Defined.

(** X3. Decoding is idempotent: decoding what [fromGid] returned changes
    nothing, for every input. *)
Theorem fromGid_idempotent (g : string) : fromGid (fromGid g) = fromGid g.
Proof.
  unfold fromGid at 2 3. destruct (strMatch gidRegex g) as [h|] eqn:E.
  - apply strMatch_gid_group in E as [_ A].
    apply fromGid_no_match. now apply digits_no_pattern.
  - unfold fromGid. now rewrite E.
Qed.

End CodecMore.

(* ------------------------------------------------------------------ *)
(** ** [parseId] against the codec *)

Module ParseId.
Import JsString JsStringFacts Gid GidFacts Formatters.

Lemma take_hitOf k g c h :
  k = 1 \/ k = 2 ->
  Regex2.hitOf k (Regex2.take g c h) = Regex.take (Nat.eqb g k) c (Regex2.hitOf k h).
Proof.
  intros [-> | ->]; unfold Regex2.hitOf, Regex2.take, Regex.take; simpl;
    [destruct (Nat.eqb g 1) | destruct (Nat.eqb g 2)]; reflexivity.
Qed.

Section Simulation.
Variable k : nat.
Hypothesis Hk : k = 1 \/ k = 2.

Lemma star_sim p g k2 k1 :
  (forall s, option_map (Regex2.hitOf k) (k2 s) = k1 s) ->
  forall s, option_map (Regex2.hitOf k) (Regex2.star p g k2 s)
            = Regex.star p (Nat.eqb g k) k1 s.
Proof.
  intros K. induction s as [|c s IH]; simpl; [apply K|].
  destruct (p c); [|apply K].
  rewrite <- IH. destruct (Regex2.star p g k2 s) as [h|]; simpl;
    [now rewrite take_hitOf | apply K].
Qed.

Lemma finish_sim aend s :
  option_map (Regex2.hitOf k) (Regex2.finish aend s) = Regex.finish aend s.
Proof.
  unfold Regex2.finish, Regex.finish, Regex2.hitOf.
  destruct aend, s; simpl; try reflexivity; destruct (Nat.eqb k 1); reflexivity.
Qed.

Lemma run_sim aend its : forall s,
  option_map (Regex2.hitOf k) (Regex2.run aend its s)
  = Regex.run aend (map (Regex2.only k) its) s.
Proof.
  induction its as [|it rest IH]; intros s; simpl; [apply finish_sim|].
  destruct (Regex2.quant it).
  - destruct s as [|c s]; [reflexivity|]. destruct (Regex2.cls it c); [|reflexivity].
    rewrite <- IH. destruct (Regex2.run aend rest s); simpl;
      [now rewrite take_hitOf | reflexivity].
  - destruct s as [|c s]; [apply IH|]. destruct (Regex2.cls it c); [|apply IH].
    rewrite <- (IH s). destruct (Regex2.run aend rest s); simpl;
      [now rewrite take_hitOf | apply IH].
  - destruct s as [|c s]; [reflexivity|]. destruct (Regex2.cls it c); [|reflexivity].
    rewrite <- (star_sim _ _ _ _ IH).
    destruct (Regex2.star _ _ _ s); simpl; [now rewrite take_hitOf | reflexivity].
Qed.

Lemma scan_sim aend its : forall s,
  option_map (fun bh => (fst bh, Regex2.hitOf k (snd bh))) (Regex2.scan aend its s)
  = Regex.scan aend (map (Regex2.only k) its) s.
Proof.
  induction s as [|c s IH]; simpl.
  - rewrite <- run_sim. destruct (Regex2.run aend its ""); reflexivity.
  - rewrite <- run_sim. destruct (Regex2.run aend its (String c s)); [reflexivity|].
    simpl. rewrite <- IH. destruct (Regex2.scan aend its s) as [[b h]|]; reflexivity.
Qed.

Lemma strMatch_sim its s :
  option_map (Regex2.hitOf k) (Regex2.strMatch its s)
  = option_map snd (Regex.scan false (map (Regex2.only k) its) s).
Proof.
  unfold Regex2.strMatch. rewrite <- scan_sim.
  destruct (Regex2.scan false its s) as [[b h]|]; reflexivity.
Qed.
End Simulation.

(** The expression of [parseId] without its first group is the expression
    of [fromGid]. *)
Lemma parseIdItems_digits : map (Regex2.only 2) parseIdItems = Regex.items gidRegex.
Proof. reflexivity. Qed.

Lemma parseId_match id :
  option_map (Regex2.hitOf 2) (Regex2.strMatch parseIdItems id)
  = Regex.strMatch gidRegex id.
Proof.
  rewrite (strMatch_sim 2 (or_intror eq_refl)), parseIdItems_digits. reflexivity.
Qed.


(** X4. [parseId] and [fromGid] agree on every input: the numeric part
    [parseId] reports is what [fromGid] returns, and [parseId] reports no
    type exactly when the text does not contain the pattern, in which case
    the numeric part is the text itself. *)
Theorem parseId_agrees_with_fromGid (id : string) :
  numericId (parseId id) = fromGid id
  /\ (type (parseId id) = None <-> ~ matchesGidPattern id)
  /\ (type (parseId id) = None -> numericId (parseId id) = id).
Proof.
  pose proof (parseId_match id) as M. unfold parseId, fromGid.
  destruct (Regex2.strMatch parseIdItems id) as [h2|] eqn:E2; simpl in M |- *;
    rewrite <- M.
  - split; [reflexivity|]. split; [|discriminate].
    split; [discriminate|]. intros N. exfalso. apply N.
    eapply strMatch_gid_sound. symmetry. exact M.
  - split; [reflexivity|]. split; [|reflexivity].
    split; [|reflexivity]. intros _ P.
    apply strMatch_gid_complete in P as [h P]. congruence.
Qed.





End ParseId.

(* ------------------------------------------------------------------ *)
(** ** Construction of the client, the process-wide instance, start-up *)

Module Lifecycle.
Import Types JsString ClientSetup Singleton.

Lemma truthy_iff s : truthy s = true <-> s <> "".
Proof. destruct s; split; intros; try congruence; try discriminate; reflexivity. Qed.

Lemma unset_none : unset None.
Proof. now left. Qed.

Lemma unset_empty : unset (Some "").
Proof. now right. Qed.

Lemma orElse_unset v b : unset v -> orElse v b = b.
Proof. intros [-> | ->]; reflexivity. Qed.

Lemma orElse_set s b : s <> "" -> orElse (Some s) b = s.
Proof. destruct s; [congruence | reflexivity]. Qed.

Lemma orElse_nonempty v b : b <> "" -> orElse v b <> "".
Proof.
  intros B. destruct v as [[|c s]|]; simpl; try exact B. discriminate.
Qed.

Lemma unset_or_set v : unset v \/ exists s, v = Some s /\ s <> "".
Proof.
  destruct v as [[|c s]|]; [left; now right | right | left; now left].
  eexists; split; [reflexivity | discriminate].
Qed.

Lemma construct_cases cfg env :
  let c := resolveConfig cfg env in
  (storeUrl c = "" /\
   construct cfg env = Threw (ThrownError (Errors.newError
     "SHOPIFY_STORE_URL is required. Set it as an environment variable or pass it in the config.")))
  \/ (storeUrl c <> "" /\ accessToken c = "" /\
      construct cfg env = Threw (ThrownError (Errors.newError
        "SHOPIFY_ACCESS_TOKEN is required. Set it as an environment variable or pass it in the config.")))
  \/ (storeUrl c <> "" /\ accessToken c <> "" /\
      construct cfg env
      = Returned {| config := c; endpoint := buildEndpoint c;
                    headers := [("X-Shopify-Access-Token", accessToken c);
                                ("Content-Type", "application/json")] |}).
Proof.
  intros c. unfold construct, validateConfig. fold c.
  destruct (storeUrl c) as [|a s] eqn:Es.
  - left. split; reflexivity.
  - right. destruct (accessToken c) as [|b t] eqn:Et.
    + left. split; [discriminate|]. split; reflexivity.
    + right. split; [discriminate|]. split; [discriminate|]. reflexivity.
Qed.

Lemma construct_full s t v env :
  s <> "" -> t <> "" -> v <> "" ->
  construct (Partial (Some s) (Some t) (Some v)) env
  = Returned {| config := Config s t v; endpoint := buildEndpoint (Config s t v);
                headers := [("X-Shopify-Access-Token", t);
                            ("Content-Type", "application/json")] |}.
Proof.
  intros Ns Nt Nv. destruct s, t, v; try congruence. reflexivity.
Qed.

(** X6. A client that has been constructed has a non-empty store URL, a
    non-empty access token and a non-empty API version, and its requests
    carry that token in the [X-Shopify-Access-Token] header. *)
Theorem constructed_client_is_configured (cfg : PartialConfig) (env : Env) (c : Client) :
  construct cfg env = Returned c ->
  storeUrl (config c) <> "" /\ accessToken (config c) <> ""
  /\ apiVersion (config c) <> ""
  /\ getProp (headers c) "X-Shopify-Access-Token" = Some (accessToken (config c)).
Proof.
  intros R. destruct (construct_cases cfg env) as [[_ E] | [(_ & _ & E) | (S & A & E)]];
    rewrite E in R; try discriminate.
  injection R as <-. simpl. repeat split; try assumption.
  apply orElse_nonempty, orElse_nonempty. discriminate.
Qed.

Lemma constructed_client_is_configured_witness :
  exists c,
    construct (Partial None (Some "tok") None)
              (MkEnv (Some "shop.myshopify.com") None (Some "")) = Returned c
    /\ storeUrl (config c) <> "" /\ accessToken (config c) <> ""
    /\ apiVersion (config c) <> ""
    /\ getProp (headers c) "X-Shopify-Access-Token" = Some (accessToken (config c)).
Proof.
  eexists. split; [reflexivity|].
  exact (constructed_client_is_configured (Partial None (Some "tok") None)
           (MkEnv (Some "shop.myshopify.com") None (Some "")) _ eq_refl).
Defined.

(** X7. Construction fails before anything else happens when a required
    value is missing: with no store URL in the configuration nor in the
    environment the constructor throws the error about [SHOPIFY_STORE_URL],
    whatever the token; with a store URL and no access token it throws the
    error about [SHOPIFY_ACCESS_TOKEN]. An empty string counts as missing. *)
Theorem construct_requires_url_and_token (cfg : PartialConfig) (env : Env) :
  (unset (cfgStoreUrl cfg) -> unset (SHOPIFY_STORE_URL env) ->
   construct cfg env = Threw (ThrownError (Errors.newError
     "SHOPIFY_STORE_URL is required. Set it as an environment variable or pass it in the config.")))
  /\ (~ (unset (cfgStoreUrl cfg) /\ unset (SHOPIFY_STORE_URL env)) ->
      unset (cfgAccessToken cfg) -> unset (SHOPIFY_ACCESS_TOKEN env) ->
      construct cfg env = Threw (ThrownError (Errors.newError
        "SHOPIFY_ACCESS_TOKEN is required. Set it as an environment variable or pass it in the config."))).
Proof.
  split.
  - intros U1 U2.
    destruct (construct_cases cfg env) as [[_ E] | [(S & _) | (S & _)]]; [exact E | |];
      exfalso; apply S; simpl; now rewrite (orElse_unset _ _ U1), (orElse_unset _ _ U2).
  - intros NU T1 T2.
    assert (S : storeUrl (resolveConfig cfg env) <> "").
    { simpl. destruct (unset_or_set (cfgStoreUrl cfg)) as [U1 | (s & -> & Ns)].
      - rewrite (orElse_unset _ _ U1).
        destruct (unset_or_set (SHOPIFY_STORE_URL env)) as [U2 | (s & -> & Ns)];
          [now destruct NU | now rewrite orElse_set].
      - now rewrite orElse_set. }
    assert (A : accessToken (resolveConfig cfg env) = "")
      by (simpl; now rewrite (orElse_unset _ _ T1), (orElse_unset _ _ T2)).
    destruct (construct_cases cfg env) as [[S' _] | [(_ & _ & E) | (_ & A' & _)]];
      [contradiction | exact E | contradiction].
Qed.

Lemma construct_requires_url_and_token_witness :
  (exists e, construct (Partial (Some "") (Some "tok") None) (MkEnv None None None)
             = Threw (ThrownError e)
             /\ includes (errMessage e) "SHOPIFY_STORE_URL" = true)
  /\ (exists e, construct (Partial (Some "shop.myshopify.com") None None)
                          (MkEnv None (Some "") None)
                = Threw (ThrownError e)
                /\ includes (errMessage e) "SHOPIFY_ACCESS_TOKEN" = true).
Proof.
  split; eexists; split.
  - exact (proj1 (construct_requires_url_and_token (Partial (Some "") (Some "tok") None)
                    (MkEnv None None None)) unset_empty unset_none).
  - reflexivity.
  - refine (proj2 (construct_requires_url_and_token
                     (Partial (Some "shop.myshopify.com") None None)
                     (MkEnv None (Some "") None)) _ unset_none unset_empty).
    intros [[U | U] _]; discriminate U.
  - reflexivity.
Defined.

(** X8. Where a constructed client takes its values from: a non-empty value
    of the configuration object wins over the environment; when the
    configuration has none, a value of the environment is used; and when
    neither gives an API version, it is [2025-01]. *)
Theorem configuration_precedence (cfg : PartialConfig) (env : Env) (c : Client) :
  construct cfg env = Returned c ->
  (forall s, cfgStoreUrl cfg = Some s -> s <> "" -> storeUrl (config c) = s)
  /\ (forall s, cfgAccessToken cfg = Some s -> s <> "" -> accessToken (config c) = s)
  /\ (forall s, cfgApiVersion cfg = Some s -> s <> "" -> apiVersion (config c) = s)
  /\ (unset (cfgStoreUrl cfg) -> SHOPIFY_STORE_URL env = Some (storeUrl (config c)))
  /\ (unset (cfgAccessToken cfg) -> SHOPIFY_ACCESS_TOKEN env = Some (accessToken (config c)))
  /\ (unset (cfgApiVersion cfg) ->
      forall s, SHOPIFY_API_VERSION env = Some s -> s <> "" -> apiVersion (config c) = s)
  /\ (unset (cfgApiVersion cfg) -> unset (SHOPIFY_API_VERSION env) ->
      apiVersion (config c) = "2025-01").
Proof.
  intros R.
  destruct (construct_cases cfg env) as [[_ E] | [(_ & _ & E) | (S & A & E)]];
    rewrite E in R; try discriminate.
  injection R as <-. simpl in *.
  split; [intros s -> Ns; now apply orElse_set|].
  split; [intros s -> Ns; now apply orElse_set|].
  split; [intros s -> Ns; now apply orElse_set|].
  split.
  { intros U. rewrite (orElse_unset _ _ U) in *.
    destruct (unset_or_set (SHOPIFY_STORE_URL env)) as [U2 | (s & -> & Ns)];
      [now rewrite (orElse_unset _ _ U2) in S | now rewrite orElse_set]. }
  split.
  { intros U. rewrite (orElse_unset _ _ U) in *.
    destruct (unset_or_set (SHOPIFY_ACCESS_TOKEN env)) as [U2 | (s & -> & Ns)];
      [now rewrite (orElse_unset _ _ U2) in A | now rewrite orElse_set]. }
  split.
  { intros U s -> Ns. now rewrite (orElse_unset _ _ U), orElse_set. }
  intros U1 U2. now rewrite (orElse_unset _ _ U1), (orElse_unset _ _ U2).
Qed.

Lemma configuration_precedence_witness :
  exists c,
    construct (Partial (Some "a.myshopify.com") None (Some ""))
              (MkEnv (Some "b.myshopify.com") (Some "env-token") None) = Returned c
    /\ storeUrl (config c) = "a.myshopify.com"
    /\ SHOPIFY_ACCESS_TOKEN (MkEnv (Some "b.myshopify.com") (Some "env-token") None)
       = Some (accessToken (config c))
    /\ apiVersion (config c) = "2025-01".
Proof.
  eexists. split; [reflexivity|].
  destruct (configuration_precedence
              (Partial (Some "a.myshopify.com") None (Some ""))
              (MkEnv (Some "b.myshopify.com") (Some "env-token") None) _ eq_refl)
    as (S & _ & _ & _ & T & _ & V).
  split; [apply (S _ eq_refl); discriminate|].
  split; [apply T; exact unset_none|].
  apply V; [exact unset_empty | exact unset_none].
Defined.

(** X9. Once [getShopifyClient] has returned a client, every later call
    without a configuration returns that same client and leaves the instance
    alone, whatever the environment has become in the meantime. *)
Theorem getShopifyClient_reuses_instance
        (cfg : option PartialConfig) (env : Env) (inst inst' : Instance) (c : Client) :
  getShopifyClient cfg env inst = (inst', Returned c) ->
  inst' = Some c
  /\ forall env', getShopifyClient None env' inst' = (inst', Returned c).
Proof.
  unfold getShopifyClient. intros G.
  assert (I : inst' = Some c).
  { destruct inst as [old|], cfg as [k|];
      try (destruct (construct _ env); now inversion G).
    now inversion G. }
  split; [exact I|]. intros env'. now rewrite I.
Qed.

Lemma getShopifyClient_reuses_instance_witness :
  exists c,
    getShopifyClient None (MkEnv (Some "shop.myshopify.com") (Some "tok") None) None
    = (Some c, Returned c)
    /\ getShopifyClient None (MkEnv None None None) (Some c) = (Some c, Returned c).
Proof.
  eexists. split; [reflexivity|].
  exact (proj2 (getShopifyClient_reuses_instance None
                  (MkEnv (Some "shop.myshopify.com") (Some "tok") None) None _ _ eq_refl)
               (MkEnv None None None)).
Defined.

(** X10. A call of [getShopifyClient] that throws leaves the instance as it
    was: a failed reconfiguration does not lose the client in place, which
    the next call without a configuration still returns. *)
Theorem getShopifyClient_failure_keeps_instance
        (cfg : option PartialConfig) (env : Env) (inst inst' : Instance) (e : Thrown) :
  getShopifyClient cfg env inst = (inst', Threw e) ->
  inst' = inst
  /\ (forall old env', inst = Some old ->
        getShopifyClient None env' inst' = (Some old, Returned old)).
Proof.
  unfold getShopifyClient. intros G.
  assert (I : inst' = inst).
  { destruct inst as [old|], cfg as [k|];
      try (destruct (construct _ env); now inversion G).
    discriminate G. }
  split; [exact I|]. intros old env' ->. now rewrite I.
Qed.

Lemma getShopifyClient_failure_keeps_instance_witness :
  exists e,
    getShopifyClient (Some (Partial (Some "") None None)) (MkEnv None None None)
                     (Some demoClient)
    = (Some demoClient, Threw e)
    /\ getShopifyClient None (MkEnv None None None) (Some demoClient)
       = (Some demoClient, Returned demoClient).
Proof.
  eexists. split; [reflexivity|].
  exact (proj2 (getShopifyClient_failure_keeps_instance
                  (Some (Partial (Some "") None None)) (MkEnv None None None)
                  (Some demoClient) _ _ eq_refl) demoClient (MkEnv None None None) eq_refl).
Defined.

End Lifecycle.

Module Startup.
Import Types JsString ClientSetup Singleton Server Lifecycle.

Lemma missing_none env :
  missingVariables env = [] <->
  (exists s, SHOPIFY_STORE_URL env = Some s /\ s <> "")
  /\ (exists t, SHOPIFY_ACCESS_TOKEN env = Some t /\ t <> "").
Proof.
  unfold missingVariables. destruct env as [su tok ver]. simpl.
  destruct su as [[|a s]|], tok as [[|b t]|]; simpl; split;
    try discriminate;
    try (intros [(x & E & N) (y & F & M)]; congruence);
    try reflexivity.
  intros _. split; eexists; split; try reflexivity; discriminate.
Qed.

(** X11. [startServer] never reaches a constructor that throws. Either a
    required variable is unset or empty, and the process exits with code 1
    before any client is constructed; or both are set, and the client is
    initialised from the environment: its store URL and token are the
    variables' values and its API version is the variable's value, or
    [2025-01] when that is unset or empty. *)
Theorem startServer_exits_or_initialises (env : Env) (inst : Instance) :
  (exists console,
      startServer env inst = Exited 1 console
      /\ (unset (SHOPIFY_STORE_URL env) \/ unset (SHOPIFY_ACCESS_TOKEN env)))
  \/ (exists c,
         startServer env inst = Initialised (Some c) (Returned c)
         /\ SHOPIFY_STORE_URL env = Some (storeUrl (config c))
         /\ SHOPIFY_ACCESS_TOKEN env = Some (accessToken (config c))
         /\ apiVersion (config c) = orElse (SHOPIFY_API_VERSION env) "2025-01").
Proof.
  unfold startServer, validateEnvironment.
  destruct (missingVariables env) as [|m ms] eqn:M.
  - right. apply missing_none in M as [(s & Es & Ns) (t & Et & Nt)].
    unfold initializeShopifyClient. rewrite Es, Et. cbn [envValue storeUrl accessToken apiVersion].
    rewrite construct_full; [| assumption | assumption | apply orElse_nonempty; discriminate].
    eexists. split; [reflexivity|]. simpl. auto.
  - left. eexists. split; [reflexivity|].
    destruct (unset_or_set (SHOPIFY_STORE_URL env)) as [U | S]; [now left|].
    destruct (unset_or_set (SHOPIFY_ACCESS_TOKEN env)) as [U | T]; [now right|].
    assert (E : missingVariables env = []) by (now apply missing_none).
    congruence.
Qed.

End Startup.

(* ------------------------------------------------------------------ *)
(** ** How thrown errors travel from the transport to the envelope *)

Module ErrorFlow.
Import JsString JsStringFacts Errors ErrorHandler.

(** The four ways [handleError] can answer, with what it has found in the
    message. *)
Lemma handleError_cases (t : Thrown) :
  handleError t = newShopifyRateLimitError "Rate limit exceeded. Please retry after a moment."
  \/ handleError t
     = newShopifyAuthenticationError "Invalid access token or authentication failed."
  \/ (exists m, handleError t = newShopifyNotFoundError m
                /\ includes m "Throttled" = false
                /\ includes m "401" || includes m "Unauthorized" = false
                /\ includes m "404" || includes m "not found" = true)
  \/ (exists m, handleError t = newShopifyAPIError m
                /\ includes m "Throttled" = false
                /\ includes m "401" || includes m "Unauthorized" = false
                /\ includes m "404" || includes m "not found" = false).
Proof.
  destruct t as [e|x]; unfold handleError.
  - destruct (includes (errMessage e) "Throttled") eqn:T; [now left|].
    destruct (includes (errMessage e) "401" || includes (errMessage e) "Unauthorized") eqn:A;
      [right; now left|].
    destruct (includes (errMessage e) "404" || includes (errMessage e) "not found") eqn:F;
      right; right; [left | right]; eauto.
  - right. right. right. exists "An unknown error occurred". repeat split.
Qed.

(** X12. Whatever the transport throws, what [query] throws is an error of
    the client's own family, never a validation error and never a foreign
    value; so the handler-side converter gives it one of the four codes
    RATELIMIT, AUTHENTICATION, NOTFOUND and API, with the message of the
    classified error and no details, and never UNKNOWN_ERROR. *)
Theorem query_errors_reach_envelope_classified
        {S T R : Type} (request : S -> string -> Variables -> S * Outcome T)
        (st st' : S) (q : string) (variables : Variables) (t : Thrown) :
  Paging.query request st q variables = (st', Threw t) ->
  exists e c,
    t = ThrownError e
    /\ isShopifyAPIError (errClass e) = true
    /\ isShopifyValidationError (errClass e) = false
    /\ @handleToolError R t = errorResult c (errMessage e) None
    /\ In c ["RATELIMIT"; "AUTHENTICATION"; "NOTFOUND"; "API"].
Proof.
  unfold Paging.query. destruct (request st q variables) as [s1 [r|t0]]; [discriminate|].
  intros [= _ <-].
  destruct (handleError_cases t0) as [E | [E | [(m & E & _) | (m & E & _)]]]; rewrite E.
  - exists (newShopifyRateLimitError "Rate limit exceeded. Please retry after a moment."),
      "RATELIMIT". repeat split; simpl; auto.
  - exists (newShopifyAuthenticationError "Invalid access token or authentication failed."),
      "AUTHENTICATION". repeat split; simpl; auto.
  - exists (newShopifyNotFoundError m), "NOTFOUND". repeat split; simpl; auto.
  - exists (newShopifyAPIError m), "API". repeat split; simpl; auto.
Qed.

Lemma query_errors_reach_envelope_classified_witness :
  exists e c,
    isShopifyAPIError (errClass e) = true
    /\ @handleToolError unit (ThrownError e) = errorResult c (errMessage e) None
    /\ In c ["RATELIMIT"; "AUTHENTICATION"; "NOTFOUND"; "API"].
Proof.
  destruct (@query_errors_reach_envelope_classified unit unit unit
              (Recording.failingRequest (ThrownOther "timeout")) tt tt "q" []
              _ eq_refl) as (e & c & E & P & _ & H & I).
  exists e, c. injection E as <-. auto.
Defined.

(** X13. Classifying twice is not classifying once. A not-found error and a
    generic API error come out of a second [handleError] unchanged, but a
    rate-limit error and an authentication error come out as generic API
    errors: their fixed messages no longer carry the words the classifier
    looks for. *)
Theorem handleError_twice (t : Thrown) :
  let e := handleError t in
  (errClass e = ShopifyNotFoundError \/ errClass e = ShopifyAPIError ->
   handleError (ThrownError e) = e)
  /\ (errClass e = ShopifyRateLimitError \/ errClass e = ShopifyAuthenticationError ->
      handleError (ThrownError e) = newShopifyAPIError (errMessage e)).
Proof.
  intros e. subst e.
  destruct (handleError_cases t) as [E | [E | [(m & E & T & A & F) | (m & E & T & A & F)]]];
    rewrite E; split; intros [C | C]; try discriminate C; try reflexivity;
    unfold handleError; cbn [errMessage newShopifyNotFoundError newShopifyAPIError];
    now rewrite T, A, F.
Qed.

Lemma handleError_twice_witness :
  handleError (ThrownError (handleError (ThrownError (newError "Throttled"))))
  = newShopifyAPIError "Rate limit exceeded. Please retry after a moment."
  /\ handleError (ThrownError (handleError (ThrownError (newError "HTTP 404"))))
     = handleError (ThrownError (newError "HTTP 404")).
Proof.
  split.
  - apply (handleError_twice (ThrownError (newError "Throttled"))). now left.
  - apply (handleError_twice (ThrownError (newError "HTTP 404"))). now left.
Defined.

(** X14. The envelope of [mutate] is consistent, and [mutate] throws only
    what the transport threw, classified. When it returns, the transport
    had returned a response, [success] is true exactly when [userErrors] is
    empty, and [data] is the response when [success] is true and [null]
    otherwise; when it throws, the transport had thrown and the error is
    [handleError] of what it threw. *)
Theorem mutate_envelope_consistent
        (request : string -> Variables -> Outcome Mutation.Response)
        (mutation : string) (variables : Variables) (mutationName : option string) :
  match Mutation.mutate request mutation variables mutationName with
  | Returned r =>
      exists response,
        request mutation variables = Returned response
        /\ (Mutation.success r = true <-> Mutation.userErrors r = [])
        /\ (Mutation.success r = true -> Mutation.data r = Some response)
        /\ (Mutation.success r = false -> Mutation.data r = None)
  | Threw t =>
      exists t0, request mutation variables = Threw t0
                 /\ t = ThrownError (handleError t0)
  end.
Proof.
  unfold Mutation.mutate. destruct (request mutation variables) as [response|t0]; [|eauto].
  destruct (Mutation.userErrorsOf _) as [[|u us]|]; simpl; exists response;
    repeat split; try discriminate; try reflexivity; intros; discriminate.
Qed.

Lemma contains_refl s : contains s s.
Proof. exists "", "". simpl. now rewrite append_nil_r. Qed.

Lemma contains_append_l a s p : contains s p -> contains (a ++ s) p.
Proof. intros (b & r & ->). exists (a ++ b), r. now rewrite append_assoc. Qed.

Lemma contains_append_r a s p : contains s p -> contains (s ++ a) p.
Proof. intros (b & r & ->). exists b, (r ++ a). now rewrite !append_assoc. Qed.

Lemma contains_concat sep xs x : In x xs -> contains (String.concat sep xs) x.
Proof.
  induction xs as [|y ys IH]; [contradiction|]. intros [-> | I].
  - destruct ys; simpl; [apply contains_refl | apply contains_append_r, contains_refl].
  - destruct ys as [|z zs]; [contradiction|].
    change (String.concat sep (y :: z :: zs)) with (y ++ sep ++ String.concat sep (z :: zs)).
    apply contains_append_l, contains_append_l, IH, I.
Qed.

(** X15. No user error is lost in the envelope of a validation failure: the
    code is VALIDATION_ERROR, the details hold the user errors as they came,
    and the message contains, for every user error, its field path joined
    with dots (or [unknown] when the field is [null]), a colon and its
    message. *)
Theorem formatUserErrors_keeps_every_error {T : Type}
        (userErrors : list Types.ShopifyUserError) :
  exists m,
    @formatUserErrors T userErrors
    = errorResult "VALIDATION_ERROR" m (Some (DetailsUserErrors userErrors))
    /\ forall e, In e userErrors ->
         contains m (match Types.field e with
                     | Some path => join "." path
                     | None => "unknown"
                     end ++ ": " ++ Types.message e).
Proof.
  eexists. split; [reflexivity|]. intros e I.
  apply contains_concat.
  apply (in_map (fun e => match Types.field e with
                          | Some path => join "." path
                          | None => "unknown"
                          end ++ ": " ++ Types.message e)) in I.
  exact I.
Qed.

Lemma formatUserErrors_keeps_every_error_witness :
  exists m,
    @formatUserErrors unit
       [Types.UserError (Some ["input"; "title"]) "can't be blank" None;
        Types.UserError None "is invalid" (Some "INVALID")]
    = errorResult "VALIDATION_ERROR" m
        (Some (DetailsUserErrors
           [Types.UserError (Some ["input"; "title"]) "can't be blank" None;
            Types.UserError None "is invalid" (Some "INVALID")]))
    /\ contains m "input.title: can't be blank"
    /\ contains m "unknown: is invalid".
Proof.
  destruct (@formatUserErrors_keeps_every_error unit
              [Types.UserError (Some ["input"; "title"]) "can't be blank" None;
               Types.UserError None "is invalid" (Some "INVALID")]) as (m & E & C).
  exists m. split; [exact E|]. split.
  - exact (C _ (or_introl eq_refl)).
  - exact (C _ (or_intror (or_introl eq_refl))).
Defined.

End ErrorFlow.

(* ------------------------------------------------------------------ *)
(** ** More on the pagination loop *)

Module PagingMore.
Import Paging Recording.

Lemma getProp_setProp_same {V : Type} (obj : list (string * V)) key v :
  getProp (setProp key v obj) key = Some v.
Proof.
  induction obj as [|[k w] rest IH]; simpl.
  - now rewrite String.eqb_refl.
  - destruct (String.eqb k key) eqn:E; simpl; rewrite E; [reflexivity | exact IH].
Qed.

Lemma getProp_setProp_other {V : Type} (obj : list (string * V)) key key' v :
  key <> key' -> getProp (setProp key v obj) key' = getProp obj key'.
Proof.
  intros Ne. induction obj as [|[k w] rest IH]; simpl.
  - destruct (String.eqb_spec key key'); [contradiction | reflexivity].
  - destruct (String.eqb_spec k key) as [->|Nk]; simpl.
    + destruct (String.eqb_spec key key'); [contradiction | reflexivity].
    + destruct (String.eqb k key'); [reflexivity | exact IH].
Qed.

Section Bound.
Context {S T N : Type}.
Variable request : S -> string -> Variables -> S * Outcome T.
Variable extractNodes : T -> Page N.
Variables (q : string) (variables : Variables).

Lemma loop_result_size fuel : forall st acc hasNext cursor run,
  (Z.of_nat (List.length acc) <= 10000)%Z ->
  queryAllLoop request extractNodes fuel q variables st acc hasNext cursor = Some run ->
  match result run with
  | Returned items =>
      (warnings run = [] /\ (Z.of_nat (List.length items) <= 10000)%Z)
      \/ (warnings run = [WARNING] /\ (10000 < Z.of_nat (List.length items))%Z)
  | Threw _ => warnings run = []
  end.
Proof.
  induction fuel as [|fuel IH]; intros st acc hasNext cursor run Le; simpl; [discriminate|].
  destruct hasNext.
  - destruct (query request st q _) as [st' [response|e]].
    + unfold SAFETY_LIMIT.
      destruct (Z.ltb_spec 10000
                  (Z.of_nat (List.length (acc ++ nodes (extractNodes response))))).
      * intros [= <-]. simpl. right. auto.
      * apply IH. assumption.
    + intros [= <-]. reflexivity.
  - intros [= <-]. simpl. left. auto.
Qed.

(** X16. The size of what [queryAll] returns tells how it ended, for every
    transport: a list returned without a warning has at most 10,000 items,
    a list returned with the warning has more than 10,000, and when
    [queryAll] throws nothing has been written on the console. *)
Theorem queryAll_result_size (fuel : nat) (st : S) (run : Run S N) :
  queryAll request extractNodes fuel q variables st = Some run ->
  match result run with
  | Returned items =>
      (warnings run = [] /\ (Z.of_nat (List.length items) <= 10000)%Z)
      \/ (warnings run = [WARNING] /\ (10000 < Z.of_nat (List.length items))%Z)
  | Threw _ => warnings run = []
  end.
Proof. unfold queryAll. apply loop_result_size. simpl. lia. Qed.
End Bound.

Lemma queryAll_result_size_witness :
  exists run,
    queryAll mockRequest self 3 "q" [] anomalyThenLast = Some run
    /\ match result run with
       | Returned items =>
           (warnings run = [] /\ (Z.of_nat (List.length items) <= 10000)%Z)
           \/ (warnings run = [WARNING] /\ (10000 < Z.of_nat (List.length items))%Z)
       | Threw _ => warnings run = []
       end.
Proof.
  eexists. split; [reflexivity|].
  exact (queryAll_result_size mockRequest self "q" [] 3 anomalyThenLast _ eq_refl).
Defined.

Section Pages.
Context {N : Type}.
Variables (q : string) (variables : Variables).

Lemma loop_recorded (pages : list (Page N)) (lastPage : Page N) :
  chained pages lastPage ->
  forall fuel log acc cursor,
    (Z.of_nat (List.length (acc ++ allNodesOf (pages ++ [lastPage]))) <= 10000)%Z ->
    List.length pages + 2 <= fuel ->
    queryAllLoop recordingRequest self fuel q variables
                 ((pages ++ [lastPage])%list, log) acc true cursor
    = Some (MkRun ([], (rev (map (fun c => Some (afterValue c))
                                 (cursor :: map cursorOf pages)) ++ log)%list)
                  [] (Returned (acc ++ allNodesOf (pages ++ [lastPage]))%list)).
Proof.
  intros [All Last]. induction pages as [|p pages IH]; intros fuel log acc cursor Le Fu.
  - destruct fuel as [|[|fuel]]; [simpl in Fu; lia | simpl in Fu; lia |].
    unfold allNodesOf in *. simpl in Le |- *. rewrite app_nil_r in *.
    rewrite getProp_setProp_same. change (self lastPage) with lastPage. unfold SAFETY_LIMIT.
    destruct (Z.ltb_spec 10000 (Z.of_nat (List.length (acc ++ nodes lastPage)))); [lia|].
    now rewrite Last.
  - destruct fuel as [|fuel]; [simpl in Fu; lia|].
    inversion All as [|? ? Hp All']; subst.
    unfold allNodesOf in *. cbn [queryAllLoop app flat_map] in Le |- *.
    unfold query, recordingRequest at 1. cbn [fst snd app].
    rewrite getProp_setProp_same. change (self p) with p. unfold SAFETY_LIMIT.
    rewrite app_assoc in Le.
    destruct (Z.ltb_spec 10000 (Z.of_nat (List.length (acc ++ nodes p)))).
    + rewrite List.length_app in Le. lia.
    + rewrite Hp. rewrite (IH All' fuel _ (acc ++ nodes p)%list (endCursor (pageInfo p)));
        [| exact Le | simpl in Fu; lia].
      cbn [map rev]. unfold cursorOf at 2.
      rewrite <- !app_assoc. reflexivity.
Qed.

Lemma loop_mock (pages : list (Page N)) (lastPage : Page N) :
  chained pages lastPage ->
  forall fuel acc cursor,
    (Z.of_nat (List.length (acc ++ allNodesOf (pages ++ [lastPage]))) <= 10000)%Z ->
    List.length pages + 2 <= fuel ->
    queryAllLoop mockRequest self fuel q variables (pages ++ [lastPage])%list acc true cursor
    = Some (MkRun [] [] (Returned (acc ++ allNodesOf (pages ++ [lastPage]))%list)).
Proof.
  intros [All Last]. induction pages as [|p pages IH]; intros fuel acc cursor Le Fu.
  - destruct fuel as [|[|fuel]]; [simpl in Fu; lia | simpl in Fu; lia |].
    unfold allNodesOf in *. simpl in Le |- *. rewrite app_nil_r in *.
    change (self lastPage) with lastPage. unfold SAFETY_LIMIT.
    destruct (Z.ltb_spec 10000 (Z.of_nat (List.length (acc ++ nodes lastPage)))); [lia|].
    now rewrite Last.
  - destruct fuel as [|fuel]; [simpl in Fu; lia|].
    inversion All as [|? ? Hp All']; subst.
    unfold allNodesOf in *. cbn [queryAllLoop app flat_map] in Le |- *.
    unfold query, mockRequest at 1. change (self p) with p. unfold SAFETY_LIMIT.
    rewrite app_assoc in Le.
    destruct (Z.ltb_spec 10000 (Z.of_nat (List.length (acc ++ nodes p)))).
    + rewrite List.length_app in Le. lia.
    + rewrite Hp. rewrite (IH All' fuel (acc ++ nodes p)%list (endCursor (pageInfo p)));
        [| exact Le | simpl in Fu; lia].
      now rewrite <- app_assoc.
Qed.

Lemma loop_exhausted (pages : list (Page N)) :
  Forall (fun p => hasNextPage (pageInfo p) = true) pages ->
  forall fuel acc cursor,
    (Z.of_nat (List.length (acc ++ allNodesOf pages)) <= 10000)%Z ->
    List.length pages + 1 <= fuel ->
    queryAllLoop mockRequest self fuel q variables pages acc true cursor
    = Some (MkRun [] [] (Threw (ThrownError (Errors.newShopifyAPIError "no more pages")))).
Proof.
  intros All. induction pages as [|p pages IH]; intros fuel acc cursor Le Fu.
  - destruct fuel as [|fuel]; [simpl in Fu; lia | reflexivity].
  - destruct fuel as [|fuel]; [simpl in Fu; lia|].
    inversion All as [|? ? Hp All']; subst.
    unfold allNodesOf in *. cbn [queryAllLoop flat_map] in Le |- *.
    unfold query, mockRequest at 1. change (self p) with p. unfold SAFETY_LIMIT.
    rewrite app_assoc in Le.
    destruct (Z.ltb_spec 10000 (Z.of_nat (List.length (acc ++ nodes p)))).
    + rewrite List.length_app in Le. lia.
    + rewrite Hp. apply (IH All'); [exact Le | simpl in Fu; lia].
Qed.

(** X17. On a source whose pages are chained (every page but the last
    announces a next page) and hold no more than 10,000 items in all,
    [queryAll] fetches every page once and returns all the items, page after
    page in the order served and within a page in the page's order, without
    a warning. *)
Theorem queryAll_returns_every_item_in_order
        (pages : list (Page N)) (lastPage : Page N) (fuel : nat) :
  chained pages lastPage ->
  (Z.of_nat (List.length (allNodesOf (pages ++ [lastPage]))) <= 10000)%Z ->
  List.length pages + 2 <= fuel ->
  queryAll mockRequest self fuel q variables (pages ++ [lastPage])%list
  = Some (MkRun [] [] (Returned (allNodesOf (pages ++ [lastPage])))).
Proof.
  intros C Le Fu. unfold queryAll.
  now rewrite (loop_mock pages lastPage C fuel [] None Le Fu).
Qed.

(** X18. The cursors [queryAll] sends. On the same kind of source, the
    first request carries [after: null] and every following request carries
    the [endCursor] of the page before it, whatever [after] the caller had
    put in the variables; one request is made per page. *)
Theorem queryAll_threads_the_cursor
        (pages : list (Page N)) (lastPage : Page N) (fuel : nat) :
  chained pages lastPage ->
  (Z.of_nat (List.length (allNodesOf (pages ++ [lastPage]))) <= 10000)%Z ->
  List.length pages + 2 <= fuel ->
  option_map (fun run => rev (snd (transport run)))
             (queryAll recordingRequest self fuel q variables
                       ((pages ++ [lastPage])%list, []))
  = Some (Some JNull :: map (fun p => Some (afterValue (cursorOf p))) pages).
Proof.
  intros C Le Fu. unfold queryAll.
  rewrite (loop_recorded pages lastPage C fuel [] [] None Le Fu).
  cbn [option_map transport snd]. rewrite app_nil_r, rev_involutive.
  cbn [map afterValue]. now rewrite map_map.
Qed.

(** X19. A failure in the middle loses what was gathered. When the source
    runs out while its pages still announce a next page, the request after
    the last page throws; [queryAll] then throws the classified error, and
    none of the items fetched so far is returned. *)
Theorem queryAll_failure_returns_nothing (pages : list (Page N)) (fuel : nat) :
  Forall (fun p => hasNextPage (pageInfo p) = true) pages ->
  (Z.of_nat (List.length (allNodesOf pages)) <= 10000)%Z ->
  List.length pages + 1 <= fuel ->
  queryAll mockRequest self fuel q variables pages
  = Some (MkRun [] [] (Threw (ThrownError (Errors.newShopifyAPIError "no more pages")))).
Proof.
  intros All Le Fu. unfold queryAll. now apply loop_exhausted.
Qed.
End Pages.

Lemma twoPages_chained :
  chained [MkPage [1] (MkPageCursor true (Some "c1"))]
          (MkPage [2; 3] (MkPageCursor false None)).
Proof. split; [constructor; [reflexivity | constructor] | reflexivity]. Qed.

Lemma queryAll_returns_every_item_in_order_witness :
  queryAll mockRequest self 3 "q" []
           [MkPage [1] (MkPageCursor true (Some "c1"));
            MkPage [2; 3] (MkPageCursor false None)]
  = Some (MkRun [] [] (Returned [1; 2; 3])).
Proof.
  apply (queryAll_returns_every_item_in_order "q" []
           [MkPage [1] (MkPageCursor true (Some "c1"))]
           (MkPage [2; 3] (MkPageCursor false None)) 3 twoPages_chained);
    simpl; lia.
Defined.

Lemma queryAll_threads_the_cursor_witness :
  option_map (fun run => rev (snd (transport run)))
             (queryAll recordingRequest self 3 "q" [("after", JString "mine")]
                       ([MkPage [1] (MkPageCursor true (Some "c1"));
                         MkPage [2; 3] (MkPageCursor false None)], []))
  = Some [Some JNull; Some (JString "c1")].
Proof.
  apply (queryAll_threads_the_cursor "q" [("after", JString "mine")]
           [MkPage [1] (MkPageCursor true (Some "c1"))]
           (MkPage [2; 3] (MkPageCursor false None)) 3 twoPages_chained);
    simpl; lia.
Defined.

Lemma queryAll_failure_returns_nothing_witness :
  queryAll mockRequest self 2 "q" [] [MkPage [1] (MkPageCursor true (Some "c1"))]
  = Some (MkRun [] [] (Threw (ThrownError (Errors.newShopifyAPIError "no more pages")))).
Proof.
  apply (queryAll_failure_returns_nothing "q" []
           [MkPage [1] (MkPageCursor true (Some "c1"))] 2);
    [constructor; [reflexivity | constructor] | simpl; lia | simpl; lia].
Defined.

End PagingMore.

(* ------------------------------------------------------------------ *)
(** * A page that announces a next page and gives no cursor *)

Module NullCursor.
Import Paging Recording.





End NullCursor.

(* ------------------------------------------------------------------ *)
(** ** The helpers of [utils/pagination.ts] *)

Module PaginationMore.
Import Types Pagination PaginationArgs.

Lemma last_app_nonempty {A : Type} (l1 l2 : list A) (d1 d2 : A) :
  l2 <> [] -> List.last (l1 ++ l2)%list d1 = List.last l2 d2.
Proof.
  intros Ne. induction l1 as [|a l1 IH]; simpl.
  - destruct l2 as [|b l2]; [congruence|]. clear Ne. revert b.
    induction l2 as [|c l2 IH2]; intros b; [reflexivity|].
    change (List.last (b :: c :: l2) d1) with (List.last (c :: l2) d1).
    change (List.last (b :: c :: l2) d2) with (List.last (c :: l2) d2).
    apply IH2.
  - destruct (l1 ++ l2)%list as [|b l] eqn:E; [|exact IH].
    apply app_eq_nil in E as [_ E]. congruence.
Qed.

Lemma combine_cons {T : Type} (r : PaginatedResult T) rs :
  combinePaginatedResults (r :: rs)
  = {| items := flat_map items (r :: rs);
       pageInfo := {| hasNextPage := hasNextPage (pageInfo (List.last (r :: rs) r));
                      hasPreviousPage := hasPreviousPage (pageInfo r);
                      startCursor := startCursor (pageInfo r);
                      endCursor := endCursor (pageInfo (List.last (r :: rs) r)) |} |}.
Proof. reflexivity. Qed.

Lemma last_two {A : Type} (x y d : A) : List.last [x; y] d = y.
Proof. reflexivity. Qed.

(** X20. Combining is compositional on non-empty lists: combining two
    lists of results one after the other gives the same accumulated result
    as combining each list first and then the two accumulated results. The
    items are all the items in order, the backward half of the page
    information is the first result's and the forward half is the last
    result's. *)
Theorem combinePaginatedResults_composes {T : Type}
        (rs1 rs2 : list (PaginatedResult T)) :
  rs1 <> [] -> rs2 <> [] ->
  combinePaginatedResults (rs1 ++ rs2)%list
  = combinePaginatedResults [combinePaginatedResults rs1; combinePaginatedResults rs2]
  /\ items (combinePaginatedResults (rs1 ++ rs2)%list) = flat_map items (rs1 ++ rs2)%list.
Proof.
  intros N1 N2. destruct rs1 as [|a rs1]; [congruence|].
  destruct rs2 as [|b rs2]; [congruence|]. split; [|reflexivity].
  change ((a :: rs1) ++ b :: rs2)%list with (a :: (rs1 ++ b :: rs2))%list.
  rewrite !combine_cons, last_two.
  cbn [items pageInfo hasNextPage hasPreviousPage startCursor endCursor].
  change (a :: (rs1 ++ b :: rs2))%list with ((a :: rs1) ++ b :: rs2)%list.
  rewrite (last_app_nonempty (a :: rs1) (b :: rs2) a b) by discriminate.
  rewrite flat_map_app. cbn [flat_map]. now rewrite app_nil_r.
Qed.

Lemma combinePaginatedResults_composes_witness :
  combinePaginatedResults
    ([page [1] true None (Some "a")] ++ [page [2] true (Some "a") (Some "b");
                                          page [3] false (Some "b") None])%list
  = combinePaginatedResults
      [combinePaginatedResults [page [1] true None (Some "a")];
       combinePaginatedResults [page [2] true (Some "a") (Some "b");
                                page [3] false (Some "b") None]].
Proof.
  apply (combinePaginatedResults_composes
           [page [1] true None (Some "a")]
           [page [2] true (Some "a") (Some "b"); page [3] false (Some "b") None]);
    discriminate.
Defined.

(** X21. The edge cases of combining. A single result is returned as it
    is. No results at all give an empty result that announces no page
    before and no page after; that empty result is not neutral: put before
    another result, it erases the other's backward cursor. *)
Theorem combinePaginatedResults_edges {T : Type} (r : PaginatedResult T) :
  combinePaginatedResults [r] = r
  /\ items (@combinePaginatedResults T []) = []
  /\ hasNextPage (pageInfo (@combinePaginatedResults T [])) = false
  /\ hasPreviousPage (pageInfo (@combinePaginatedResults T [])) = false
  /\ startCursor (pageInfo (combinePaginatedResults [combinePaginatedResults []; r])) = None
  /\ items (combinePaginatedResults [combinePaginatedResults []; r]) = items r.
Proof.
  destruct r as [its [hn hp sc ec]]. unfold combinePaginatedResults. simpl.
  rewrite app_nil_r. repeat split.
Qed.

(** X22. What [buildPaginationArgs] copies. [first] and [last] are copied
    whenever they are given, zero included; [after] and [before] only when
    they are non-empty strings; nothing else is put in the arguments, and
    no key appears twice. *)
Theorem buildPaginationArgs_keys (options : Options) :
  let args := buildPaginationArgs options in
  getProp args "first" = option_map JNumber (first options)
  /\ getProp args "last" = option_map JNumber (last options)
  /\ getProp args "after"
     = match after options with
       | Some s => if JsString.truthy s then Some (JString s) else None
       | None => None
       end
  /\ getProp args "before"
     = match before options with
       | Some s => if JsString.truthy s then Some (JString s) else None
       | None => None
       end
  /\ NoDup (keys args)
  /\ incl (keys args) ["first"; "after"; "last"; "before"].
Proof.
  destruct options as [f a l b]. unfold buildPaginationArgs, assign.
  cbn [first after last before].
  destruct f as [f|], a as [[|ca a]|], l as [l|], b as [[|cb b]|];
    cbn -[JsString.truthy];
    (repeat split;
     [ repeat constructor; simpl; intuition discriminate
     | intros x I; simpl in I |- *; intuition ]).
Qed.

End PaginationMore.

(* ------------------------------------------------------------------ *)
(** ** [truncate] *)

Module TruncateFacts.
Import JsStringFacts Formatters.

Lemma length_append (a b : string) :
  String.length (a ++ b) = String.length a + String.length b.
Proof. induction a as [|c a IH]; simpl; [reflexivity | now rewrite IH]. Qed.

Lemma substring_prefix n : forall s,
  exists rest, s = String.substring 0 n s ++ rest
               /\ String.length (String.substring 0 n s) = Nat.min n (String.length s).
Proof.
  induction n as [|n IH]; intros s.
  - exists s. destruct s; split; reflexivity.
  - destruct s as [|c s]; [exists ""; split; reflexivity|].
    destruct (IH s) as (rest & E & L). exists rest. simpl. split; [now rewrite <- E | now rewrite L].
Qed.

(** X23. [truncate] against its limit. A text that fits is returned as it
    is, and a missing text gives the empty string. A longer text is cut
    to its first [maxLength - 3] characters followed by three dots, so with
    a limit of 3 or more the result never exceeds the limit; with a limit
    below 3 the result is the three dots alone, longer than the limit. *)
Theorem truncate_against_limit (text : option string) (maxLength : Z) :
  (3 <= maxLength -> Z.of_nat (String.length (truncate text maxLength)) <= maxLength)%Z
  /\ (text = None -> truncate text maxLength = "")
  /\ (forall t, text = Some t -> (Z.of_nat (String.length t) <= maxLength)%Z ->
        truncate text maxLength = t)
  /\ (forall t, text = Some t -> t <> "" -> (maxLength < Z.of_nat (String.length t))%Z ->
        exists kept rest,
          t = kept ++ rest
          /\ truncate text maxLength = kept ++ "..."
          /\ Z.of_nat (String.length kept) = Z.max 0 (maxLength - 3))
  /\ (forall t, text = Some t -> t <> "" -> (maxLength < Z.of_nat (String.length t))%Z ->
        (maxLength < 3)%Z -> truncate text maxLength = "...").
Proof.
  assert (Cut : forall t, t <> "" -> (maxLength < Z.of_nat (String.length t))%Z ->
                exists kept rest,
                  t = kept ++ rest
                  /\ truncate (Some t) maxLength = kept ++ "..."
                  /\ Z.of_nat (String.length kept) = Z.max 0 (maxLength - 3)).
  { intros t Nt Lt. unfold truncate.
    destruct t as [|c t]; [congruence|]. cbn [JsString.truthy negb].
    destruct (Z.leb_spec (Z.of_nat (String.length (String c t))) maxLength); [lia|].
    destruct (substring_prefix (Z.to_nat (maxLength - 3)) (String c t)) as (rest & E & L).
    exists (String.substring 0 (Z.to_nat (maxLength - 3)) (String c t)), rest.
    split; [exact E|]. split; [reflexivity|]. rewrite L. lia. }
  split; [|split; [|split; [|split]]].
  - intros Ge. destruct text as [t|]; [|simpl; lia].
    destruct t as [|c t]; [simpl; lia|].
    destruct (Z.leb_spec (Z.of_nat (String.length (String c t))) maxLength) as [Le|Lt].
    + unfold truncate. cbn [JsString.truthy negb].
      destruct (Z.leb_spec (Z.of_nat (String.length (String c t))) maxLength); lia.
    + destruct (Cut (String c t)) as (kept & rest & _ & -> & L); [discriminate | exact Lt |].
      rewrite length_append. simpl String.length. lia.
  - intros ->. reflexivity.
  - intros t -> Le. unfold truncate. destruct t as [|c t]; [reflexivity|].
    cbn [JsString.truthy negb].
    destruct (Z.leb_spec (Z.of_nat (String.length (String c t))) maxLength); [reflexivity | lia].
  - intros t -> Nt Lt. now apply Cut.
  - intros t -> Nt Lt Small.
    destruct (Cut t Nt Lt) as (kept & rest & _ & -> & L).
    destruct kept; [reflexivity | simpl in L; lia].
Qed.

Lemma truncate_against_limit_witness :
  (Z.of_nat (String.length (truncate (Some "Organic cotton tee") 10)) <= 10)%Z
  /\ truncate (Some "tee") 10 = "tee"
  /\ truncate (Some "Organic cotton tee") 2 = "...".
Proof.
  destruct (truncate_against_limit (Some "Organic cotton tee") 10) as (B & _).
  destruct (truncate_against_limit (Some "tee") 10) as (_ & _ & F & _).
  destruct (truncate_against_limit (Some "Organic cotton tee") 2) as (_ & _ & _ & _ & S).
  split; [apply B; lia|]. split; [apply (F _ eq_refl); simpl; lia|].
  apply (S _ eq_refl); [discriminate | simpl; lia | lia].
Defined.

End TruncateFacts.

(* ------------------------------------------------------------------ *)
(** ** The registry and the dispatch *)

Module Dispatch.
Import ErrorHandler Server PagingMore.

Lemma find_app {A : Type} (f : A -> bool) (l1 l2 : list A) :
  find f (l1 ++ l2)%list = match find f l1 with
                           | Some x => Some x
                           | None => find f l2
                           end.
Proof. induction l1 as [|a l1 IH]; simpl; [reflexivity|]. destruct (f a); auto. Qed.

Lemma newMap_get {V : Type} (entries : list (string * V)) key : forall m0,
  getProp (fold_left (fun m kv => setProp (fst kv) (snd kv) m) entries m0) key
  = match find (fun kv => String.eqb (fst kv) key) (rev entries) with
    | Some kv => Some (snd kv)
    | None => getProp m0 key
    end.
Proof.
  induction entries as [|[k v] entries IH]; intros m0; [reflexivity|].
  cbn [fold_left rev fst snd]. rewrite IH, find_app.
  destruct (find _ (rev entries)); [reflexivity|]. cbn [find fst snd].
  destruct (String.eqb_spec k key) as [->|Ne].
  - apply getProp_setProp_same.
  - now apply getProp_setProp_other.
Qed.

Lemma find_map_name {World : Type} (defs : list (@ToolDefinition World)) key :
  find (fun kv => String.eqb (fst kv) key)
       (map (fun tool => (name tool, handler tool)) defs)
  = option_map (fun tool => (name tool, handler tool))
               (find (fun tool => String.eqb (name tool) key) defs).
Proof.
  induction defs as [|t defs IH]; [reflexivity|]. simpl.
  destruct (String.eqb (name t) key); [reflexivity | exact IH].
Qed.

Lemma toolHandlerMap_get {World : Type} (defs : list (@ToolDefinition World)) key :
  mapGet (toolHandlerMap defs) key
  = option_map handler (find (fun tool => String.eqb (name tool) key) (rev defs)).
Proof.
  unfold mapGet, toolHandlerMap, newMap. rewrite newMap_get, <- map_rev, find_map_name.
  destruct (find _ (rev defs)); reflexivity.
Qed.

Lemma find_name_none {World : Type} (defs : list (@ToolDefinition World)) key :
  find (fun tool => String.eqb (name tool) key) defs = None <-> ~ In key (map name defs).
Proof.
  induction defs as [|t defs IH]; simpl; [tauto|].
  destruct (String.eqb_spec (name t) key) as [E|Ne].
  - split; [discriminate | intros N; exfalso; apply N; now left].
  - rewrite IH. tauto.
Qed.

(** X24. The handler a name dispatches to. Looking a name up in
    [toolHandlerMap] gives the handler of the last definition that carries
    the name, so when two definitions share a name the later one silently
    wins; and it gives nothing exactly when no definition carries it. *)
Theorem toolHandlerMap_last_definition_wins
        {World : Type} (defs : list (@ToolDefinition World)) (key : string) :
  mapGet (toolHandlerMap defs) key
  = option_map handler (find (fun tool => String.eqb (name tool) key) (rev defs))
  /\ (mapGet (toolHandlerMap defs) key = None <-> ~ In key (toolNames defs)).
Proof.
  split; [apply toolHandlerMap_get|].
  rewrite toolHandlerMap_get. unfold toolNames.
  destruct (find _ (rev defs)) as [t|] eqn:F; simpl.
  - split; [discriminate|]. intros N. exfalso.
    assert (F' : find (fun tool => String.eqb (name tool) key) (rev defs) <> None)
      by congruence.
    apply F'. apply find_name_none. rewrite map_rev. intros I. apply N.
    now apply in_rev.
  - split; [|reflexivity]. intros _ I.
    apply find_name_none in F. apply F. rewrite map_rev. now apply in_rev in I.
Qed.

(** X25. What the dispatch answers. For a name that no definition carries
    the request handler throws the method-not-found error naming the tool.
    For a registered name it always answers, whatever the tool's handler
    does: the data without an error flag when the handler returns a
    successful result, and an answer flagged as an error when the handler
    returns a failure or throws. *)
Theorem callTool_answers {World : Type} (defs : list (@ToolDefinition World))
        (w : World) (toolName : string) (args : option (list (string * Json))) :
  (~ In toolName (toolNames defs) ->
   callTool defs w toolName args = (w, MethodNotFound ("Unknown tool: " ++ toolName)))
  /\ (In toolName (toolNames defs) ->
      exists h w' r,
        mapGet (toolHandlerMap defs) toolName = Some h
        /\ callTool defs w toolName args = (w', Answer r)
        /\ (isError r = None <->
            exists res, snd (h w (match args with
                                  | Some a => JObject a
                                  | None => JObject []
                                  end)) = Returned res /\ success res = true)
        /\ (isError r = None \/ isError r = Some true)).
Proof.
  unfold callTool. split.
  - intros N.
    assert (G : mapGet (toolHandlerMap defs) toolName = None).
    { rewrite toolHandlerMap_get.
      destruct (find _ (rev defs)) eqn:F; [|reflexivity]. exfalso.
      assert (F' : find (fun tool => String.eqb (name tool) toolName) (rev defs) <> None)
        by congruence.
      apply F'. apply find_name_none. rewrite map_rev. intros I. apply N.
      now apply in_rev. }
    now rewrite G.
  - intros I. destruct (mapGet (toolHandlerMap defs) toolName) as [h|] eqn:G.
    + exists h.
      destruct (h w _) as [w' [res|e]] eqn:H.
      * destruct (success res) eqn:Sc; do 2 eexists; (split; [reflexivity|]);
          (split; [reflexivity|]); simpl; split; auto.
        -- split; [intros _; eauto | reflexivity].
        -- split; [discriminate | intros (res' & [= <-] & Sc'); congruence].
      * do 2 eexists. split; [reflexivity|]. split; [reflexivity|]. simpl. split; auto.
        split; [discriminate | intros (res' & D & _); discriminate D].
    + exfalso. rewrite toolHandlerMap_get in G.
      destruct (find _ (rev defs)) eqn:F; [discriminate|].
      apply find_name_none in F. apply F. rewrite map_rev. now apply in_rev in I.
Qed.

Lemma toolHandlerMap_last_definition_wins_witness :
  mapGet (toolHandlerMap demoTools) "echo" = Some okHandler
  /\ mapGet (toolHandlerMap demoTools) "missing" = None.
Proof.
  destruct (toolHandlerMap_last_definition_wins demoTools "echo") as [L _].
  destruct (toolHandlerMap_last_definition_wins demoTools "missing") as [_ N].
  split; [exact L|]. apply N. simpl. intuition discriminate.
Defined.

Lemma callTool_answers_witness :
  callTool demoTools tt "missing" None = (tt, MethodNotFound "Unknown tool: missing")
  /\ (exists r, callTool demoTools tt "boom" None = (tt, Answer r)
                /\ isError r = Some true).
Proof.
  destruct (callTool_answers demoTools tt "missing" None) as [U _].
  destruct (callTool_answers demoTools tt "boom" None) as [_ R].
  split; [apply U; simpl; intuition discriminate|].
  destruct R as (h & w' & r & _ & C & _ & E); [simpl; auto|].
  destruct w'. exists r. split; [exact C|].
  destruct E as [E | E]; [|exact E].
  exfalso. vm_compute in C. injection C as <-. discriminate E.
Defined.

End Dispatch.

(* ------------------------------------------------------------------ *)
(** ** A handler end to end: [deleteProduct] *)

Module ProductHandler.
Import JsString Errors ErrorHandler Singleton Products Lifecycle ErrorFlow.

Lemma getShopifyClient_throws env inst inst' e :
  getShopifyClient None env inst = (inst', Threw e) ->
  inst = None /\ inst' = None
  /\ exists msg, e = ThrownError (newError msg).
Proof.
  unfold getShopifyClient. destruct inst as [c|]; [discriminate|].
  destruct (construct_cases emptyConfig env) as [[_ E] | [(_ & _ & E) | (_ & _ & E)]];
    rewrite E; intros [= <- <-]; eauto.
Qed.

Lemma getShopifyClient_returns env inst inst' c :
  getShopifyClient None env inst = (inst', Returned c) -> inst' = Some c.
Proof.
  unfold getShopifyClient. destruct inst as [old|]; [now intros [= <- <-]|].
  destruct (ClientSetup.construct emptyConfig env); now intros [= <- <-].
Qed.

Lemma handleToolError_fails {T : Type} (t : Thrown) : success (@handleToolError T t) = false.
Proof.
  destruct t as [e|x]; unfold handleToolError;
    [destruct (isShopifyValidationError (errClass e));
     [|destruct (isShopifyAPIError (errClass e))]|]; reflexivity.
Qed.

Section Handler.
Variable network : string -> list (string * string) -> string -> Variables
                   -> Outcome Mutation.Response.

(** X26. [deleteProduct] always resolves with an envelope and leaves the
    environment alone. A successful envelope reports the deletion and echoes
    the identifier as it was given; a failed one carries one of six codes:
    VALIDATION_ERROR (user errors), UNKNOWN_ERROR (no client could be
    constructed), or RATELIMIT, AUTHENTICATION, NOTFOUND, API (the transport
    failed). *)
Theorem deleteProduct_always_resolves (w : World) (id : string) :
  exists w' r,
    deleteProduct network w id = (w', Returned r)
    /\ env w' = env w
    /\ (success r = true -> r = deleted id)
    /\ (success r = false ->
        exists c m d,
          error r = Some {| code := c; message := m; details := d |}
          /\ In c ["VALIDATION_ERROR"; "UNKNOWN_ERROR"; "RATELIMIT"; "AUTHENTICATION";
                   "NOTFOUND"; "API"]).
Proof.
  unfold deleteProduct, deleteProductTry.
  destruct (getShopifyClient None (env w) (clientInstance w)) as [inst [client|e]] eqn:G.
  - destruct (clientMutate network client _ _ _) as [result|t] eqn:M.
    + destruct (Mutation.success result); cbn [negb]; do 2 eexists;
        (split; [reflexivity|]); (split; [reflexivity|]); split;
        try discriminate; try (intros _; reflexivity).
      intros _. do 3 eexists. split; [reflexivity|]. simpl. auto.
    + unfold clientMutate, Mutation.mutate in M.
      destruct (network _ _ _ _) as [response|t0]; [|injection M as <-].
      * destruct (Mutation.userErrorsOf _) as [ues|]; [destruct (_ <? _)%Z|]; discriminate M.
      * do 2 eexists. split; [reflexivity|]. split; [reflexivity|].
        destruct (handleError_cases t0) as [E | [E | [(m & E & _) | (m & E & _)]]];
          rewrite E; (split; [discriminate|]); intros _; do 3 eexists;
          (split; [reflexivity|]); simpl; auto 10.
  - apply getShopifyClient_throws in G as (_ & _ & msg & ->).
    do 2 eexists. split; [reflexivity|]. split; [reflexivity|].
    split; [discriminate|]. intros _. do 3 eexists. split; [reflexivity|]. simpl. auto.
Qed.

(** X27. With a client in place, [deleteProduct] follows the answer to its
    one request, made to the client's endpoint with the identifier encoded
    as a product. User errors under [productDelete] give the
    VALIDATION_ERROR envelope with those errors as details; no user errors
    there give the success envelope. *)
Theorem deleteProduct_follows_the_answer
        (w : World) (id : string) (client : Client) (response : Mutation.Response) :
  clientInstance w = Some client ->
  network (endpoint client) (headers client) DELETE_PRODUCT (deleteVariables id)
  = Returned response ->
  (forall ues others,
      getProp response "productDelete" = Some (Mutation.RObject (Some ues) others) ->
      ues <> [] ->
      deleteProduct network w id
      = (w, Returned (errorResult "VALIDATION_ERROR" "Failed to delete product"
                        (Some (DetailsUserErrors ues)))))
  /\ (Mutation.userErrorsOf (getProp response "productDelete") = None
      \/ Mutation.userErrorsOf (getProp response "productDelete") = Some [] ->
      deleteProduct network w id = (w, Returned (deleted id))).
Proof.
  intros I Net. destruct w as [e inst]. simpl in I. subst inst.
  unfold deleteProduct, deleteProductTry, getShopifyClient, clientMutate, Mutation.mutate.
  cbn [env clientInstance]. fold (deleteVariables id). rewrite Net.
  cbn [Mutation.resultKey truthy Mutation.propertyKey]. split.
  - intros ues others G Ne. rewrite G. cbn [Mutation.userErrorsOf].
    destruct ues as [|u ues]; [congruence|]. reflexivity.
  - intros [U | U]; rewrite U; reflexivity.
Qed.

(** X28. Without configuration [deleteProduct] makes no request. When
    there is no client yet and the environment gives no store URL, the
    envelope is a failure with the code UNKNOWN_ERROR and the message of the
    constructor, the same whatever the network would have answered, and
    there is still no client afterwards. *)
Theorem deleteProduct_without_configuration (w : World) (id : string) :
  clientInstance w = None ->
  unset (SHOPIFY_STORE_URL (env w)) ->
  deleteProduct network w id
  = (w, Returned (errorResult "UNKNOWN_ERROR"
       "SHOPIFY_STORE_URL is required. Set it as an environment variable or pass it in the config."
       None)).
Proof.
  intros I U. destruct w as [e inst]. simpl in I, U. subst inst.
  unfold deleteProduct, deleteProductTry, getShopifyClient. cbn [env clientInstance].
  destruct (construct_cases emptyConfig e) as [[_ E] | [(S & _) | (S & _)]].
  - rewrite E. reflexivity.
  - exfalso. apply S. simpl. now rewrite (orElse_unset _ _ U).
  - exfalso. apply S. simpl. now rewrite (orElse_unset _ _ U).
Qed.

(** X29. The two spellings of an identifier are one request. Calling
    [deleteProduct] with an identifier and calling it with the encoded form
    of that identifier leave the same world and give envelopes with the
    same outcome; a failure envelope is the same in both, and a success
    envelope differs only in the identifier it echoes. *)
Theorem deleteProduct_same_for_both_spellings (w : World) (id : string) :
  let gid := Gid.toGid "Product" (IdString id) in
  exists w' r r',
    deleteProduct network w id = (w', Returned r)
    /\ deleteProduct network w gid = (w', Returned r')
    /\ success r' = success r
    /\ (success r = false -> r' = r)
    /\ (success r = true -> r = deleted id /\ r' = deleted gid).
Proof.
  intros gid. unfold deleteProduct, deleteProductTry.
  replace (Gid.toGid "Product" (IdString gid)) with gid
    by (symmetry; apply CodecMore.toGid_again).
  fold gid.
  destruct (getShopifyClient None (env w) (clientInstance w)) as [inst [client|e]].
  - destruct (clientMutate network client _ _ _) as [result|t].
    + destruct (Mutation.success result); cbn [negb]; do 3 eexists;
        (split; [reflexivity|]); (split; [reflexivity|]); (split; [reflexivity|]).
      * split; [intros F; discriminate F | intros _; split; reflexivity].
      * split; [intros _; reflexivity | intros F; discriminate F].
    + do 3 eexists. split; [reflexivity|]. split; [reflexivity|].
      split; [reflexivity|]. split; [intros _; reflexivity|].
      intros F. rewrite handleToolError_fails in F. discriminate F.
  - do 3 eexists. split; [reflexivity|]. split; [reflexivity|].
    split; [reflexivity|]. split; [intros _; reflexivity|].
    intros F. rewrite handleToolError_fails in F. discriminate F.
Qed.
End Handler.

Lemma deleteProduct_follows_the_answer_witness :
  deleteProduct rejectingNetwork readyWorld "7"
  = (readyWorld, Returned (errorResult "VALIDATION_ERROR" "Failed to delete product"
                             (Some (DetailsUserErrors [noSuchProduct]))))
  /\ deleteProduct acceptingNetwork readyWorld "7" = (readyWorld, Returned (deleted "7")).
Proof.
  split.
  - apply (proj1 (deleteProduct_follows_the_answer rejectingNetwork readyWorld "7"
                    demoClient deleteRejected eq_refl eq_refl)
                 [noSuchProduct] [("deletedProductId", JNull)] eq_refl).
    discriminate.
  - apply (proj2 (deleteProduct_follows_the_answer acceptingNetwork readyWorld "7"
                    demoClient deleteAccepted eq_refl eq_refl)).
    right. reflexivity.
Defined.

Lemma deleteProduct_without_configuration_witness :
  deleteProduct acceptingNetwork bareWorld "7"
  = (bareWorld, Returned (errorResult "UNKNOWN_ERROR"
       "SHOPIFY_STORE_URL is required. Set it as an environment variable or pass it in the config."
       None)).
Proof.
  exact (deleteProduct_without_configuration acceptingNetwork bareWorld "7"
           eq_refl unset_none).
Defined.

End ProductHandler.
